(** * Balanced News backend: the feed gateway of [backend/src/index.js]

    The development embeds the [GET /feed] handler of the Express gateway:
    the coordinate guard, the cache look-up, the call of the source
    selector, the article fetch and the card-assembly loop that fills one
    slot per selected source.  JavaScript values are modelled as far as
    the handler inspects them; everything the handler merely copies is
    carried along unchanged. *)

From stdpp Require Import base decidable option list strings sorting.
From Stdlib Require Import Ascii ZArith QArith SpecFloat.

Local Open Scope nat_scope.

(** ** JavaScript values read by the handler *)

Module Js.

(** A JSON scalar as it arrives in an article of the news provider:
    a field can be missing ([undefined]), [null] or a string. *)
Inductive value : Type :=
| Undefined
| Null
| Str (s : string).

#[global] Instance value_eq_dec : EqDecision value.
Proof. solve_decision. Defined.

(** [v === s] for a string [s]: strict equality never converts, so only a
    string with the same characters is equal to [s]. *)
Definition strict_eq_string (v : value) (s : string) : bool :=
  match v with
  | Str t => bool_decide (t = s)
  | Undefined | Null => false
  end.

(** [if (v)]: of the values above only a non-empty string is truthy. *)
Definition truthy (v : value) : bool :=
  match v with
  | Str s => negb (bool_decide (s = EmptyString))
  | Undefined | Null => false
  end.

(** [ToString(v)] for the values above. *)
Definition ToString (v : value) : string :=
  match v with
  | Undefined => "undefined"
  | Null => "null"
  | Str s => s
  end.

(** A Number, as far as the handler tells numbers apart: [NaN], the two
    infinities, or a finite double, given by the rational it is equal to
    (the two zeros are not told apart). *)
Inductive number : Type :=
| NaN
| Infinity (negative : bool)
| Finite (q : Q).

Definition isNaN (n : number) : bool :=
  match n with
  | NaN => true
  | Infinity _ | Finite _ => false
  end.

Definition negate (n : number) : number :=
  match n with
  | NaN => NaN
  | Infinity b => Infinity (negb b)
  | Finite q => Finite (Qred (- q))
  end.

(** *** [parseFloat] (ECMAScript, 19.2.4)

    [parseFloat(v)] converts [v] to a string, drops leading white space
    and reads the longest prefix that is a [StrDecimalLiteral]; it answers
    [NaN] when there is none, and otherwise the double nearest to the
    literal.  A [string] holds the UTF-8 encoding of the JavaScript
    string, so the white space beyond ASCII takes two or three bytes. *)

(** TAB, LF, VT, FF, CR and SP. *)
Definition isWhiteSpace (c : ascii) : bool :=
  let n := nat_of_ascii c in
  ((9 <=? n) && (n <=? 13)) || (n =? 32).

(** The second and third byte of a three-byte white space character whose
    first byte is [b0]: U+1680, U+2000 to U+200A, U+2028, U+2029, U+202F,
    U+205F, U+3000 and U+FEFF. *)
Definition isWhiteSpace3 (b0 b1 b2 : nat) : bool :=
  ((b0 =? 225) && (b1 =? 154) && (b2 =? 128))
  || ((b0 =? 226) && (b1 =? 128)
      && (((128 <=? b2) && (b2 <=? 138)) || (b2 =? 168) || (b2 =? 169) || (b2 =? 175)))
  || ((b0 =? 226) && (b1 =? 129) && (b2 =? 159))
  || ((b0 =? 227) && (b1 =? 128) && (b2 =? 128))
  || ((b0 =? 239) && (b1 =? 187) && (b2 =? 191)).

Definition isDigit (c : ascii) : bool :=
  let n := nat_of_ascii c in (48 <=? n) && (n <=? 57).

Definition digitValue (c : ascii) : Z := Z.of_nat (nat_of_ascii c - 48).

(** [s] without its leading white space and line terminators; U+00A0 is
    the two bytes 194, 160. *)
Fixpoint trimStart (s : string) : string :=
  match s with
  | String c r =>
      if isWhiteSpace c then trimStart r
      else
        match r with
        | String c1 r1 =>
            if (nat_of_ascii c =? 194) && (nat_of_ascii c1 =? 160) then trimStart r1
            else
              match r1 with
              | String c2 r2 =>
                  if isWhiteSpace3 (nat_of_ascii c) (nat_of_ascii c1) (nat_of_ascii c2)
                  then trimStart r2
                  else s
              | EmptyString => s
              end
        | EmptyString => s
        end
  | EmptyString => EmptyString
  end.

(** The leading [DecimalDigits] of [s], as digit values, and what follows. *)
Fixpoint takeDigits (s : string) : list Z * string :=
  match s with
  | String c r =>
      if isDigit c then
        let '(ds, t) := takeDigits r in (digitValue c :: ds, t)
      else ([], s)
  | EmptyString => ([], EmptyString)
  end.

Definition decimalValue (ds : list Z) : Z :=
  foldl (λ acc d, 10 * acc + d)%Z 0%Z ds.

(** The exponent denoted by the [ExponentPart] [s] starts with, [0] when
    [s] does not start with one ([e] or [E], an optional sign, digits). *)
Definition exponentPart (s : string) : Z :=
  match s with
  | String c r =>
      if bool_decide (c = "e"%char) || bool_decide (c = "E"%char) then
        let '(neg, r') :=
          match r with
          | String "+"%char t => (false, t)
          | String "-"%char t => (true, t)
          | _ => (false, r)
          end in
        match takeDigits r' with
        | ([], _) => 0%Z
        | (ds, _) => if neg : bool then (- decimalValue ds)%Z else decimalValue ds
        end
      else 0%Z
  | EmptyString => 0%Z
  end.

(** The double nearest to [mantissa * 10 ^ exponent] (ties to even), for a
    [mantissa] that is not negative: the quotient of two integers, rounded
    once, to 53 bits and the exponent range of binary64. *)
Definition scaled (mantissa exponent : Z) : number :=
  let '(num, den) :=
    (if 0 <=? exponent then (mantissa * 10 ^ exponent, 1)
     else (mantissa, 10 ^ (- exponent)))%Z in
  match num with
  | Z0 => Finite 0
  | _ =>
      let '(q, e, loc) := SFdiv_core_binary 53 1024 num 0 den 0 in
      match binary_round_aux 53 1024 false q e loc with
      | S754_zero _ => Finite 0
      | S754_infinity s => Infinity s
      | S754_finite s m e' =>
          Finite (Qred (inject_Z (if s then Z.neg m else Z.pos m) * Qpower (2 # 1) e'))
      | S754_nan => NaN
      end
  end.

(** [StrUnsignedDecimalLiteral]: [Infinity], [digits . digits? exp?],
    [. digits exp?] or [digits exp?]. *)
Definition strUnsignedDecimalLiteral (s : string) : option number :=
  if String.prefix "Infinity" s then Some (Infinity false)
  else
    let '(ip, r) := takeDigits s in
    match r with
    | String "."%char r' =>
        let '(fp, r'') := takeDigits r' in
        match ip, fp with
        | [], [] => None
        | _, _ =>
            Some (scaled (decimalValue (ip ++ fp))
                         (exponentPart r'' - Z.of_nat (length fp)))
        end
    | _ =>
        match ip with
        | [] => None
        | _ => Some (scaled (decimalValue ip) (exponentPart r))
        end
    end.

Definition strDecimalLiteral (s : string) : option number :=
  match s with
  | String "+"%char r => strUnsignedDecimalLiteral r
  | String "-"%char r => negate <$> strUnsignedDecimalLiteral r
  | _ => strUnsignedDecimalLiteral s
  end.

Definition parseFloat (v : value) : number :=
  default NaN (strDecimalLiteral (trimStart (ToString v))).

(** What a statement of the handler does: it completes with a value or
    throws.  The only throw the assembly loop could perform is the
    [TypeError] of reading a property of [undefined]; [Error] stands for
    what an imported function rejects with. *)
Inductive exn : Type :=
| TypeError (message : string)
| SyntaxError (message : string)
| Error (message : string).

Definition message (e : exn) : string :=
  match e with
  | TypeError m | SyntaxError m | Error m => m
  end.

Inductive completion (A : Type) : Type :=
| Normal (a : A)
| Throw (e : exn).
Arguments Normal {A} a.
Arguments Throw {A} e.

(** Sequencing: a throw skips the rest of the block. *)
#[global] Instance completion_ret : MRet completion := λ A a, Normal a.
#[global] Instance completion_bind : MBind completion := λ A B k c,
  match c with
  | Normal a => k a
  | Throw e => Throw e
  end.

End Js.

Import Js.

(** ** Data model *)

(** An entry of the source catalog, [{id, name, side, x, y}]. *)
Record Source : Type := mkSource {
  id : string;
  name : string;
  side : string;
  x : Q;
  y : Q
}.

(** The [source] field of a provider article: missing, [null], or an object
    with an [id] (which the provider leaves [null] for unlisted outlets). *)
Inductive SourceField : Type :=
| SourceAbsent
| SourceNull
| SourceObj (ref_id : value) (ref_name : value).

Record Article : Type := mkArticle {
  source : SourceField;
  title : value;
  url : value;
  urlToImage : value;
  publishedAt : value
}.

(** The object pushed to [cards]; field names as in the response. *)
Record Card : Type := mkCard {
  articleId : value;
  cardTitle : value;
  sourceId : string;
  sourceName : string;
  imageUrl : value;
  cardUrl : value;
  cardPublishedAt : value;
  cardSide : string
}.

(** ** Card assembly (index.js, lines 86-123) *)

(** [a.source && a.source.id === src.id], as the truth value [find] sees. *)
Definition isMatch (src : Source) (a : Article) : bool :=
  match source a with
  | SourceObj i _ => strict_eq_string i (id src)
  | SourceAbsent | SourceNull => false
  end.

(** The object literal of lines 93-102 and, with [fallbackArticle] for
    [art], of lines 110-119. *)
Definition card (art : Article) (src : Source) : Card :=
  {| articleId := url art;
     cardTitle := title art;
     sourceId := id src;
     sourceName := name src;
     imageUrl := urlToImage art;
     cardUrl := url art;
     cardPublishedAt := publishedAt art;
     cardSide := side src |}.

(** [articles.find(a => a.source && a.source.id === src.id)]: the first
    article that satisfies the predicate, [None] for [undefined]. *)
Definition find (src : Source) (articles : list Article) : option Article :=
  snd <$> list_find (λ a, isMatch src a) articles.

(** [articles[i].url ...]: indexing past the end gives [undefined], and
    reading a field of [undefined] throws. *)
Definition element (articles : list Article) (i : nat) : completion Article :=
  match articles !! i with
  | Some a => Normal a
  | None => Throw (TypeError "Cannot read properties of undefined")
  end.

(** The body of [for (const src of sources)]; [cards] is the array built so
    far and [cards.push] appends at its end. *)
Definition slot (articles : list Article) (cards : list Card) (src : Source)
  : completion (list Card) :=
  match find src articles with
  | Some art => Normal (cards ++ [card art src])
  | None =>
      if 0 <? length articles then
        fallbackArticle ← element articles (length cards mod length articles);
        Normal (cards ++ [card fallbackArticle src])
      else Normal cards
  end.

(** [for (const x of l) body], threading the loop state. *)
Fixpoint forOf {A S : Type} (body : S → A → completion S) (l : list A) (s : S)
  : completion S :=
  match l with
  | [] => Normal s
  | a :: l' => s' ← body s a; forOf body l' s'
  end.

(** [const cards = []; for (const src of sources) { ... }] *)
Definition assembleCards (sources : list Source) (articles : list Article)
  : completion (list Card) :=
  forOf (slot articles) sources [].

(** ** Vocabulary for the assembled cards *)

(** The article a slot is filled with once [n] cards have been pushed: the
    first exact match, otherwise the article at [n mod articles.length]. *)
Definition pick (articles : list Article) (n : nat) (src : Source) : option Article :=
  match find src articles with
  | Some art => Some art
  | None => articles !! (n mod length articles)
  end.

(** [filled articles n sources cards]: [cards] holds one card per source, in
    order, the first of them pushed when [n] cards had been emitted. *)
Inductive filled (articles : list Article) : nat → list Source → list Card → Prop :=
| filled_nil n : filled articles n [] []
| filled_cons n src sources art cards :
    pick articles n src = Some art →
    filled articles (S n) sources cards →
    filled articles n (src :: sources) (card art src :: cards).

(** The identity fields of a card are those of the source of its slot. *)
Definition identityOf (src : Source) (c : Card) : Prop :=
  sourceId c = id src ∧ sourceName c = name src ∧ cardSide c = side src.

(** The sources whose slot pushes a card: every one of them when there is
    an article to show, none otherwise. *)
Definition emittingSources (sources : list Source) (articles : list Article)
  : list Source :=
  match articles with
  | [] => []
  | _ :: _ => sources
  end.

(** ** Source selection ([pickSources] of feed.js) *)

Section Selector.

(** The static catalog, the number of feed slots and the distance of a
    catalog coordinate from the query coordinate. *)
Context (catalog : list Source) (slots : nat) (metric : Q * Q → Q * Q → Q).

(** Modelled from the spec: the order [selectSources] ranks the catalog by,
    whose code (feed.js) is missing: nearer to the query coordinate first,
    ties broken by ascending source identifier. *)
Definition closer (q : Q * Q) (s t : Source) : bool :=
  match (metric q (x s, y s) ?= metric q (x t, y t))%Q with
  | Lt => true
  | Eq => String.leb (id s) (id t)
  | Gt => false
  end.

(** Modelled from the spec: [selectSources] ([pickSources] of the missing
    feed.js): the [slots] catalog sources nearest to the query coordinate,
    nearest first, all of the catalog when it has fewer entries. *)
Definition selectSources (qx qy : Q) : list Source :=
  take slots (merge_sort (λ s t, closer (qx, qy) s t) catalog).

End Selector.

(** Squared Euclidean distance, the metric of the examples. *)
Definition euclid2 (p q : Q * Q) : Q :=
  ((p.1 - q.1) * (p.1 - q.1) + (p.2 - q.2) * (p.2 - q.2))%Q.

(** ** The gateway: [app.get('/feed', async (req, res) => ...)] *)

(** [req.query] of a request whose [x] and [y] are each missing or a string;
    [Express.Query] below holds every value the query parser builds. *)
Record Request : Type := mkRequest {
  query_x : value;
  query_y : value
}.

(** The argument of [res.json]. *)
Inductive Body : Type :=
| ErrorJson (error : string) (details : option string)
| CardsJson (cards : list Card)
| ParsedJson (text : string).

Record Response : Type := mkResponse {
  status : nat;
  body : Body
}.

(** The imported functions the handler calls; the index is the type of the
    value a call returns (or, awaited, resolves to). *)
Inductive Call : Type → Type :=
| getCache (key : string) : Call value
| pickSources (x y : number) : Call (list Source)
| getArticlesBySources (ids : list string) : Call (list Article)
| setCache (key : string) (cards : list Card) (ttl : nat) : Call unit.

(** A call as it shows in the log of a run. *)
Inductive Event : Type :=
| CacheRead (key : string)
| SourcesPicked (x y : number)
| ArticlesFetched (ids : list string)
| CacheWritten (key : string) (cards : list Card) (ttl : nat).

Definition eventOf {X} (c : Call X) : Event :=
  match c with
  | getCache k => CacheRead k
  | pickSources x y => SourcesPicked x y
  | getArticlesBySources ids => ArticlesFetched ids
  | setCache k cards ttl => CacheWritten k cards ttl
  end.

(** Handler code: it returns, throws, or calls an imported function and goes
    on with what the call completed with. *)
Inductive Prog (A : Type) : Type :=
| Ret (a : A)
| Raise (e : exn)
| Invoke {X : Type} (c : Call X) (k : completion X → Prog A).
Arguments Ret {A} a.
Arguments Raise {A} e.
Arguments Invoke {A X} c k.

Fixpoint Prog_bind {A B} (k : A → Prog B) (p : Prog A) : Prog B :=
  match p with
  | Ret a => k a
  | Raise e => Raise e
  | Invoke c k' => Invoke c (λ r, Prog_bind k (k' r))
  end.

#[global] Instance Prog_mret : MRet Prog := λ A a, Ret a.
#[global] Instance Prog_mbind : MBind Prog := λ A B k p, Prog_bind k p.

(** [await f(...)] (or a plain call): a rejection is thrown at the caller. *)
Definition call {X} (c : Call X) : Prog X :=
  Invoke c (λ r, match r with Normal v => Ret v | Throw e => Raise e end).

(** Synchronous code inside the handler. *)
Definition lift {A} (c : completion A) : Prog A :=
  match c with
  | Normal a => Ret a
  | Throw e => Raise e
  end.

(** [try { p } catch (e) { h e }] *)
Fixpoint tryCatch {A} (p : Prog A) (h : exn → Prog A) : Prog A :=
  match p with
  | Ret a => Ret a
  | Raise e => h e
  | Invoke c k => Invoke c (λ r, tryCatch (k r) h)
  end.

(** The collaborators of a run: what each call completes with. *)
Definition World : Type := ∀ X, Call X → completion X.

(** Run handler code against a world; the log lists the calls in order. *)
Fixpoint run {A} (w : World) (p : Prog A) : completion A * list Event :=
  match p with
  | Ret a => (Normal a, [])
  | Raise e => (Throw e, [])
  | Invoke c k => let '(r, log) := run w (k (w _ c)) in (r, eventOf c :: log)
  end.

(** Built-ins whose results the handler only passes on:
    [Number.prototype.toFixed], whether [JSON.parse] accepts a text, and the
    message of the [SyntaxError] it throws for a text it does not accept. *)
Record Engine : Type := mkEngine {
  toFixed : number → nat → string;
  isJSON : string → bool;
  jsonError : string → string
}.

Definition JSON_parse (E : Engine) (text : string) : completion Body :=
  if isJSON E text then Normal (ParsedJson text)
  else Throw (SyntaxError (jsonError E text)).

(** [res.json(b)] with the default status. *)
Definition json (b : Body) : Response := {| status := 200; body := b |}.

(** The [/feed] handler (index.js, lines 43-142) on a [Request];
    [Express.feed] below is the handler on every query.  [debug] only logs
    and is left out; the [stack] field of the 500 body, present in
    development mode only, is not modelled. *)
Definition feed (E : Engine) (req : Request) : Prog Response :=
  let x := parseFloat (query_x req) in
  let y := parseFloat (query_y req) in
  if isNaN x || isNaN y then
    Ret {| status := 400; body := ErrorJson "x and y required" None |}
  else
    let cacheKey := "feed:" +:+ toFixed E x 3 +:+ ":" +:+ toFixed E y 3 in
    tryCatch
      (cached ← call (getCache cacheKey);
       if truthy cached then
         parsed ← lift (JSON_parse E (ToString cached));
         Ret (json parsed)
       else
         sources ← call (pickSources x y);
         if length sources =? 0 then Ret (json (CardsJson []))
         else
           articles ← call (getArticlesBySources (id <$> sources));
           cards ← lift (assembleCards sources articles);
           _ ← (if 0 <? length cards then call (setCache cacheKey cards 1800)
                else Ret ());
           Ret (json (CardsJson cards)))
      (λ e, Ret {| status := 500;
                   body := ErrorJson "Failed to fetch articles" (Some (message e)) |}).

(** ** Sample data: the two-source scenario *)

Module Sample.

Definition srcA : Source := mkSource "A" "Alpha" "LEFT" 0 0.
Definition srcB : Source := mkSource "B" "Beta" "RIGHT" 10 10.

(** An article of source B, and one whose [source] is [null]. *)
Definition artB : Article :=
  mkArticle (SourceObj (Str "B") (Str "Beta"))
            (Str "Budget vote") (Str "https://b.example/1") Null (Str "2024-05-01").
Definition artAnon : Article :=
  mkArticle SourceNull
            (Str "Wire report") (Str "https://w.example/7") Undefined (Str "2024-05-02").

Definition engine : Engine :=
  {| toFixed := λ _ _, "0.000";
     isJSON := λ _, true;
     jsonError := λ _, "Unexpected end of JSON input" |}.

(** A world with an empty cache that selects A and B and finds [artB]. *)
Definition world : World := λ X c,
  match c in Call X return completion X with
  | getCache _ => Normal Null
  | pickSources _ _ => Normal [srcA; srcB]
  | getArticlesBySources _ => Normal [artB]
  | setCache _ _ _ => Normal ()
  end.

End Sample.

(** ** IEEE doubles, where the code computes with them *)

Module Double.

(** A Number as the engine holds it: a binary64 value. *)
Definition double : Type := spec_float.

Definition ofZ (n : Z) : double := binary_normalize 53 1024 n 0 false.

(** [a / b] and [a * b], rounded to nearest even. *)
Definition div (a b : double) : double := SFdiv 53 1024 a b.
Definition mul (a b : double) : double := SFmul 53 1024 a b.

(** [if (n)]: zeros and [NaN] are falsy. *)
Definition truthy (n : double) : bool :=
  match n with
  | S754_zero _ | S754_nan => false
  | S754_infinity _ | S754_finite _ _ _ => true
  end.

(** [Math.ceil]: the least integer not below [f]; zeros, infinities and
    [NaN] are returned as they are, and a value in (-1, 0) gives [-0]. *)
Definition Math_ceil (f : double) : double :=
  match f with
  | S754_finite s m e =>
      if (0 <=? e)%Z then f
      else
        let d := (2 ^ (- e))%Z in
        if s then
          let n := (Z.pos m / d)%Z in
          if (n =? 0)%Z then S754_zero true else ofZ (- n)
        else ofZ ((Z.pos m + d - 1) / d)
  | S754_zero _ | S754_infinity _ | S754_nan => f
  end.

(** The integer a double denotes, truncated; [0] for what is not finite. *)
Definition toZ (f : double) : Z :=
  match f with
  | S754_finite s m e =>
      let a := (if 0 <=? e then Z.pos m * 2 ^ e else Z.pos m / 2 ^ (- e))%Z in
      if s then (- a)%Z else a
  | S754_zero _ | S754_infinity _ | S754_nan => 0%Z
  end.

(** The sign bit; [NaN] counts as not negative. *)
Definition negative (f : double) : bool :=
  match f with
  | S754_zero s | S754_infinity s | S754_finite s _ _ => s
  | S754_nan => false
  end.

(** [signed s f]: [f] is a number, not [NaN], with sign bit [s]. *)
Definition signed (s : bool) (f : double) : Prop :=
  match f with
  | S754_zero s' | S754_infinity s' | S754_finite s' _ _ => s' = s
  | S754_nan => False
  end.

End Double.

(** ** Handler code over any set of collaborators

    The same shape as [Prog], for the handlers that call other imported
    functions than [/feed] does. *)

Inductive Code (C : Type → Type) (A : Type) : Type :=
| Done (a : A)
| Fail (e : exn)
| Await {X : Type} (c : C X) (k : completion X → Code C A).
Arguments Done {C A} a.
Arguments Fail {C A} e.
Arguments Await {C A X} c k.

Fixpoint Code_bind {C A B} (k : A → Code C B) (p : Code C A) : Code C B :=
  match p with
  | Done a => k a
  | Fail e => Fail e
  | Await c k' => Await c (λ r, Code_bind k (k' r))
  end.

#[global] Instance Code_mret {C} : MRet (Code C) := λ A a, Done a.
#[global] Instance Code_mbind {C} : MBind (Code C) := λ A B k p, Code_bind k p.

(** [await f(...)] *)
Definition await {C X} (c : C X) : Code C X :=
  Await c (λ r, match r with Normal v => Done v | Throw e => Fail e end).

(** [try { p } catch (e) { h e }] *)
Fixpoint catch {C A} (p : Code C A) (h : exn → Code C A) : Code C A :=
  match p with
  | Done a => Done a
  | Fail e => h e
  | Await c k => Await c (λ r, catch (k r) h)
  end.

(** Run code against the answers [w] of the collaborators; [ev] names each
    call in the log. *)
Fixpoint exec {C A E} (ev : ∀ X, C X → E) (w : ∀ X, C X → completion X)
    (p : Code C A) : completion A * list E :=
  match p with
  | Done a => (Normal a, [])
  | Fail e => (Throw e, [])
  | Await c k => let '(r, log) := exec ev w (k (w _ c)) in (r, ev _ c :: log)
  end.

(** A response whose success payload is an [A]. *)
Inductive Payload (A : Type) : Type :=
| Failure (error : string) (details : option string)
| Value (a : A)
| Parsed (text : string).
Arguments Failure {A} error details.
Arguments Value {A} a.
Arguments Parsed {A} text.

Record Reply (A : Type) : Type := mkReply {
  code : nat;
  payload : Payload A
}.
Arguments mkReply {A} code payload.
Arguments code {A} r.
Arguments payload {A} r.

(** ** [parseArticle] (article.js) and the [/article] route *)

Module ArticleRoute.

(** What [Mercury.parse] resolves to, as far as [parseArticle] reads it;
    [word_count] is [None] when the field is missing. *)
Record MercuryResult : Type := mkMercuryResult {
  title : value;
  author : value;
  date_published : value;
  content : value;
  word_count : option Double.double
}.

(** The object [parseArticle] returns. *)
Record Extract : Type := mkExtract {
  extractTitle : value;
  extractAuthor : value;
  publishedAt : value;
  htmlContent : value;
  readingTimeSec : Double.double
}.

(** The imported functions of article.js and of the route. *)
Inductive Call : Type → Type :=
| getCache (key : string) : Call value
| axios_get (url : value) : Call value
| Mercury_parse (url : value) (html : value) : Call MercuryResult
| setCache (key : string) (article : Extract) (ttl : N) : Call unit.

Inductive Event : Type :=
| CacheRead (key : string)
| Downloaded (url : value)
| Extracted (url : value) (html : value)
| CacheWritten (key : string) (article : Extract) (ttl : N).

Definition eventOf {X} (c : Call X) : Event :=
  match c with
  | getCache k => CacheRead k
  | axios_get u => Downloaded u
  | Mercury_parse u h => Extracted u h
  | setCache k a ttl => CacheWritten k a ttl
  end.

Definition World : Type := ∀ X, Call X → completion X.

(** [a || b] *)
Definition orElse (a b : value) : value := if truthy a then a else b.

(** [wc ? Math.ceil((wc / 200) * 60) : 0] *)
Definition readingTime (wc : option Double.double) : Double.double :=
  match wc with
  | Some n =>
      if Double.truthy n then
        Double.Math_ceil (Double.mul (Double.div n (Double.ofZ 200)) (Double.ofZ 60))
      else S754_zero false
  | None => S754_zero false
  end.

(** article.js, lines 5-30, for a [url] that is a string;
    [Express.parseArticle] below takes any [url]. *)
Definition parseArticle (url : value) : Code Call Extract :=
  html ← catch (await (axios_get url))
               (λ err, Fail (Error ("URL unreachable: " +:+ message err)));
  catch
    (parsed ← await (Mercury_parse url html);
     Done {| extractTitle := orElse (title parsed) url;
             extractAuthor := orElse (author parsed) (Str "");
             publishedAt := orElse (date_published parsed) (Str "");
             htmlContent := orElse (content parsed) (Str "");
             readingTimeSec := readingTime (word_count parsed) |})
    (λ err, Fail (Error ("Failed to parse article: " +:+ message err))).

(** [JSON.parse]: whether it accepts a text, and the message of the
    [SyntaxError] it throws for a text it does not accept. *)
Record JSONParse : Type := mkJSONParse {
  accepts : string → bool;
  complaint : string → string
}.

(** [JSON.parse(cached)] as the reply payload. *)
Definition parseCached (JSON : JSONParse) (text : string)
  : completion (Payload Extract) :=
  if accepts JSON text then Normal (Parsed text)
  else Throw (SyntaxError (complaint JSON text)).

(** The [/article] handler (index.js, lines 145-168) for a [url] that is
    missing or a string ([Express.article] below takes any [url]); [encode]
    is [encodeURIComponent]. *)
Definition article (encode : string → string) (JSON : JSONParse)
    (url : value) : Code Call (Reply Extract) :=
  if negb (truthy url) then
    Done {| code := 400; payload := Failure "url required" None |}
  else
    let cacheKey := "article:" +:+ encode (ToString url) in
    catch
      (cached ← await (getCache cacheKey);
       if truthy cached then
         match parseCached JSON (ToString cached) with
         | Normal parsed => Done {| code := 200; payload := parsed |}
         | Throw e => Fail e
         end
       else
         extract ← parseArticle url;
         _ ← await (setCache cacheKey extract 86400%N);
         Done {| code := 200; payload := Value extract |})
      (λ e, Done {| code := 500;
                    payload := Failure "Failed to parse article" (Some (message e)) |}).

Definition run {A} (w : World) (p : Code Call A) : completion A * list Event :=
  exec (@eventOf) w p.




End ArticleRoute.

(** ** The [/reaction] route (index.js, lines 171-191) *)

Module ReactionRoute.

(** A field of the JSON request body: a JSON value; an array or object is
    kept as its text. *)
Inductive json : Type :=
| JNull
| JBool (b : bool)
| JNum (n : Double.double)
| JStr (s : string)
| JCompound (text : string).

(** A field may be missing from the body ([undefined]). *)
Definition field : Type := option json.

Definition truthy (f : field) : bool :=
  match f with
  | None | Some JNull => false
  | Some (JBool b) => b
  | Some (JNum n) => Double.truthy n
  | Some (JStr s) => negb (bool_decide (s = EmptyString))
  | Some (JCompound _) => true
  end.

(** [req.body], destructured. *)
Record Body : Type := mkBody {
  userId : field;
  articleId : field;
  emoji : field;
  ts : field
}.

(** The object handed to [saveReaction]. *)
Record Reaction : Type := mkReaction {
  savedUserId : field;
  savedArticleId : field;
  savedEmoji : field;
  savedTs : field
}.

Inductive Call : Type → Type :=
| saveReaction (r : Reaction) : Call unit.

Definition eventOf {X} (c : Call X) : Reaction :=
  match c with
  | saveReaction r => r
  end.

Definition World : Type := ∀ X, Call X → completion X.

(** [articleId.substring(0, 50) + '...']: an argument of [debug], evaluated
    whether or not debugging is on.  Only a string has [substring]. *)
Definition substring50 (a : field) : completion string :=
  match a with
  | Some (JStr s) => Normal (String.substring 0 50 s +:+ "...")
  | None | Some JNull =>
      Throw (TypeError "Cannot read properties of undefined")
  | Some (JBool _) | Some (JNum _) | Some (JCompound _) =>
      Throw (TypeError "articleId.substring is not a function")
  end.

(** [ts || Date.now()], with [now] the reading of the clock. *)
Definition orNow (ts : field) (now : Double.double) : field :=
  if truthy ts then ts else Some (JNum now).

(** The payload of a good reply is the object [{ status: 'ok' }]. *)
Definition reaction (now : Double.double) (body : Body) : Code Call (Reply string) :=
  catch
    (if negb (truthy (userId body)) || negb (truthy (articleId body))
        || negb (truthy (emoji body)) then
       Done {| code := 400;
               payload := Failure "userId, articleId, and emoji required" None |}
     else
       match substring50 (articleId body) with
       | Throw e => Fail e
       | Normal _ =>
           _ ← await (saveReaction {| savedUserId := userId body;
                                      savedArticleId := articleId body;
                                      savedEmoji := emoji body;
                                      savedTs := orNow (ts body) now |});
           Done {| code := 200; payload := Value "ok" |}
       end)
    (λ e, Done {| code := 500;
                  payload := Failure "Failed to save reaction" (Some (message e)) |}).

Definition run {A} (w : World) (p : Code Call A) : completion A * list Reaction :=
  exec (@eventOf) w p.

End ReactionRoute.

(** ** The routes on the query values Express delivers

    The query parser of Express 4 (qs, with [allowPrototypes]) gives a
    query key a string, an array ([url=a&url=b]) or an object
    ([x[toString]=1]).  [feed] and [ArticleRoute.article] above are the
    handlers for parameters that are missing or strings; the handlers of
    this module take every value the parser builds, and convert it where
    the code does. *)

Module Express.

#[local] Unset Elimination Schemes.
Inductive param : Type :=
| Missing
| Text (s : string)
| List (items : list param)
| Dict (fields : list (string * param)).
#[local] Set Elimination Schemes.

(** [!p] is false for an array or an object, and for a non-empty string. *)
Definition truthy (p : param) : bool :=
  match p with
  | Missing => false
  | Text s => negb (bool_decide (s = EmptyString))
  | List _ | Dict _ => true
  end.

(** Whether the object has a property of its own named [key]. *)
Definition hasOwn (key : string) (fields : list (string * param)) : bool :=
  existsb (λ kv, bool_decide (kv.1 = key)) fields.

(** [ToString(p)].  An array is joined with commas, a missing element
    giving the empty string.  An object is converted through its [toString]:
    the inherited one answers ["[object Object]"]; an own property of that
    name is a parsed value, not a function, so neither it nor [valueOf]
    yields a primitive and the conversion throws. *)
Fixpoint ToString (p : param) : completion string :=
  match p with
  | Missing => Normal "undefined"
  | Text s => Normal s
  | List items =>
      let fix join (l : list param) : completion string :=
        match l with
        | [] => Normal EmptyString
        | x :: r =>
            a ← match x with
                | Missing => Normal EmptyString
                | Text _ | List _ | Dict _ => ToString x
                end;
            match r with
            | [] => Normal a
            | _ :: _ => b ← join r; Normal (a +:+ "," +:+ b)
            end
        end in
      join items
  | Dict fields =>
      if hasOwn "toString" fields
      then Throw (TypeError "Cannot convert object to primitive value")
      else Normal "[object Object]"
  end.

(** [parseFloat(p)]: the conversion to a string, then the number read from
    the string. *)
Definition parseFloat (p : param) : completion number :=
  s ← ToString p; Normal (Js.parseFloat (Str s)).

(** [req.query] of a [/feed] request. *)
Record Query : Type := mkQuery {
  qx : param;
  qy : param
}.

(** The [/feed] handler (index.js, lines 43-142); the two [parseFloat] calls
    of lines 44-45 stand before the [try] of line 55. *)
Definition feed (E : Engine) (q : Query) : Prog Response :=
  x ← lift (parseFloat (qx q));
  y ← lift (parseFloat (qy q));
  if isNaN x || isNaN y then
    Ret {| status := 400; body := ErrorJson "x and y required" None |}
  else
    let cacheKey := "feed:" +:+ toFixed E x 3 +:+ ":" +:+ toFixed E y 3 in
    tryCatch
      (cached ← call (getCache cacheKey);
       if Js.truthy cached then
         parsed ← lift (JSON_parse E (Js.ToString cached));
         Ret (json parsed)
       else
         sources ← call (pickSources x y);
         if length sources =? 0 then Ret (json (CardsJson []))
         else
           articles ← call (getArticlesBySources (id <$> sources));
           cards ← lift (assembleCards sources articles);
           _ ← (if 0 <? length cards then call (setCache cacheKey cards 1800)
                else Ret ());
           Ret (json (CardsJson cards)))
      (λ e, Ret {| status := 500;
                   body := ErrorJson "Failed to fetch articles" (Some (message e)) |}).

(** The query of [feed] a convertible query amounts to. *)
Definition asRequest (sx sy : string) : Request :=
  {| query_x := Str sx; query_y := Str sy |}.

(** *** [/article] and [parseArticle] for any [url] *)

(** The object [parseArticle] returns; its title can be the [url] itself. *)
Record Extract : Type := mkExtract {
  title : param;
  author : value;
  publishedAt : value;
  htmlContent : value;
  readingTimeSec : Double.double
}.

Inductive Call : Type → Type :=
| getCache (key : string) : Call value
| axios_get (url : param) : Call value
| Mercury_parse (url : param) (html : value) : Call ArticleRoute.MercuryResult
| setCache (key : string) (article : Extract) (ttl : N) : Call unit.

Inductive Event : Type :=
| CacheRead (key : string)
| Downloaded (url : param)
| Extracted (url : param) (html : value)
| CacheWritten (key : string) (article : Extract) (ttl : N).

Definition eventOf {X} (c : Call X) : Event :=
  match c with
  | getCache k => CacheRead k
  | axios_get u => Downloaded u
  | Mercury_parse u h => Extracted u h
  | setCache k a ttl => CacheWritten k a ttl
  end.

Definition World : Type := ∀ X, Call X → completion X.

Definition run {A} (w : World) (p : Code Call A) : completion A * list Event :=
  exec (@eventOf) w p.

(** [parsed.title || url] *)
Definition orUrl (t : value) (url : param) : param :=
  match t with
  | Str s => if Js.truthy t then Text s else url
  | Undefined | Null => url
  end.

(** article.js, lines 5-30. *)
Definition parseArticle (url : param) : Code Call Extract :=
  html ← catch (await (axios_get url))
               (λ err, Fail (Error ("URL unreachable: " +:+ message err)));
  catch
    (parsed ← await (Mercury_parse url html);
     Done {| title := orUrl (ArticleRoute.title parsed) url;
             author := ArticleRoute.orElse (ArticleRoute.author parsed) (Str "");
             publishedAt :=
               ArticleRoute.orElse (ArticleRoute.date_published parsed) (Str "");
             htmlContent := ArticleRoute.orElse (ArticleRoute.content parsed) (Str "");
             readingTimeSec := ArticleRoute.readingTime (ArticleRoute.word_count parsed) |})
    (λ err, Fail (Error ("Failed to parse article: " +:+ message err))).

(** The [/article] handler (index.js, lines 145-168); the template literal
    of line 149, which converts [url] to a string for [encodeURIComponent]
    ([encode]), stands before the [try] of line 151. *)
Definition article (encode : string → string) (JSON : ArticleRoute.JSONParse)
    (url : param) : Code Call (Reply Extract) :=
  if negb (truthy url) then
    Done {| code := 400; payload := Failure "url required" None |}
  else
    text ← match ToString url with Normal s => Done s | Throw e => Fail e end;
    let cacheKey := "article:" +:+ encode text in
    catch
      (cached ← await (getCache cacheKey);
       if Js.truthy cached then
         if ArticleRoute.accepts JSON (Js.ToString cached)
         then Done {| code := 200; payload := Parsed (Js.ToString cached) |}
         else Fail (SyntaxError (ArticleRoute.complaint JSON (Js.ToString cached)))
       else
         extract ← parseArticle url;
         _ ← await (setCache cacheKey extract 86400%N);
         Done {| code := 200; payload := Value extract |})
      (λ e, Done {| code := 500;
                    payload := Failure "Failed to parse article" (Some (message e)) |}).

End Express.

(** ** The ways through the [/feed] handler *)

(** The cache key of a request and the reply to a caught exception. *)
Definition feedKey (E : Engine) (req : Request) : string :=
  "feed:" +:+ toFixed E (parseFloat (query_x req)) 3
          +:+ ":" +:+ toFixed E (parseFloat (query_y req)) 3.

Definition feedFailure (e : exn) : Response :=
  {| status := 500;
     body := ErrorJson "Failed to fetch articles" (Some (message e)) |}.

(** [FeedPath E w req resp log]: in world [w] the handler answers [req] with
    [resp] after the calls of [log]; one constructor per way through the
    handler. *)
Inductive FeedPath (E : Engine) (w : World) (req : Request)
  : Response → list Event → Prop :=
| path_rejected :
    isNaN (parseFloat (query_x req)) || isNaN (parseFloat (query_y req)) = true →
    FeedPath E w req
      {| status := 400; body := ErrorJson "x and y required" None |} []
| path_cache_down e :
    isNaN (parseFloat (query_x req)) || isNaN (parseFloat (query_y req)) = false →
    w _ (getCache (feedKey E req)) = Throw e →
    FeedPath E w req (feedFailure e) [CacheRead (feedKey E req)]
| path_cache_hit cached :
    isNaN (parseFloat (query_x req)) || isNaN (parseFloat (query_y req)) = false →
    w _ (getCache (feedKey E req)) = Normal cached →
    truthy cached = true → isJSON E (ToString cached) = true →
    FeedPath E w req (json (ParsedJson (ToString cached)))
      [CacheRead (feedKey E req)]
| path_cache_garbled cached :
    isNaN (parseFloat (query_x req)) || isNaN (parseFloat (query_y req)) = false →
    w _ (getCache (feedKey E req)) = Normal cached →
    truthy cached = true → isJSON E (ToString cached) = false →
    FeedPath E w req (feedFailure (SyntaxError (jsonError E (ToString cached))))
      [CacheRead (feedKey E req)]
| path_fresh cached resp log :
    isNaN (parseFloat (query_x req)) || isNaN (parseFloat (query_y req)) = false →
    w _ (getCache (feedKey E req)) = Normal cached →
    truthy cached = false →
    FreshPath E w req resp log →
    FeedPath E w req resp
      (CacheRead (feedKey E req)
       :: SourcesPicked (parseFloat (query_x req)) (parseFloat (query_y req))
       :: log)

(** The ways through the handler after a cache miss; [log] holds the calls
    after the one of the selector. *)
with FreshPath (E : Engine) (w : World) (req : Request)
  : Response → list Event → Prop :=
| fresh_selector_down e :
    w _ (pickSources (parseFloat (query_x req)) (parseFloat (query_y req))) = Throw e →
    FreshPath E w req (feedFailure e) []
| fresh_no_sources :
    w _ (pickSources (parseFloat (query_x req)) (parseFloat (query_y req))) = Normal [] →
    FreshPath E w req (json (CardsJson [])) []
| fresh_fetch_down sources e :
    w _ (pickSources (parseFloat (query_x req)) (parseFloat (query_y req)))
      = Normal sources →
    sources ≠ [] →
    w _ (getArticlesBySources (id <$> sources)) = Throw e →
    FreshPath E w req (feedFailure e) [ArticlesFetched (id <$> sources)]
| fresh_no_cards sources articles :
    w _ (pickSources (parseFloat (query_x req)) (parseFloat (query_y req)))
      = Normal sources →
    sources ≠ [] →
    w _ (getArticlesBySources (id <$> sources)) = Normal articles →
    assembleCards sources articles = Normal [] →
    FreshPath E w req (json (CardsJson [])) [ArticlesFetched (id <$> sources)]
| fresh_cache_write_down sources articles cards e :
    w _ (pickSources (parseFloat (query_x req)) (parseFloat (query_y req)))
      = Normal sources →
    sources ≠ [] →
    w _ (getArticlesBySources (id <$> sources)) = Normal articles →
    assembleCards sources articles = Normal cards → cards ≠ [] →
    w _ (setCache (feedKey E req) cards 1800) = Throw e →
    FreshPath E w req (feedFailure e)
      [ArticlesFetched (id <$> sources); CacheWritten (feedKey E req) cards 1800]
| fresh_served sources articles cards :
    w _ (pickSources (parseFloat (query_x req)) (parseFloat (query_y req)))
      = Normal sources →
    sources ≠ [] →
    w _ (getArticlesBySources (id <$> sources)) = Normal articles →
    assembleCards sources articles = Normal cards → cards ≠ [] →
    w _ (setCache (feedKey E req) cards 1800) = Normal () →
    FreshPath E w req (json (CardsJson cards))
      [ArticlesFetched (id <$> sources); CacheWritten (feedKey E req) cards 1800].

(** ** Sample collaborators for the three routes *)

Module Scenario.

(** Three articles of outlets that are not among the selected sources, and
    five slots to fill from them. *)
Definition artC : Article :=
  mkArticle (SourceObj (Str "C") (Str "Gamma"))
            (Str "Harvest") (Str "https://c.example/3") (Str "https://c.example/3.png")
            (Str "2024-05-03").
Definition artD : Article :=
  mkArticle (SourceObj Null (Str "Delta"))
            (Str "Ferry") (Str "https://d.example/4") Null (Str "2024-05-04").
Definition strangers : list Article := [Sample.artAnon; artC; artD].
Definition fiveSlots : list Source :=
  [Sample.srcA; Sample.srcB; Sample.srcA; Sample.srcB; Sample.srcA].

(** A world of the [/feed] route from the answers of its four collaborators. *)
Definition feedWorld (cache : completion value) (picked : completion (list Source))
    (fetched : completion (list Article)) (written : completion unit) : World :=
  λ X c,
    match c in Call X return completion X with
    | getCache _ => cache
    | pickSources _ _ => picked
    | getArticlesBySources _ => fetched
    | setCache _ _ _ => written
    end.

Definition req : Request := mkRequest (Str "1") (Str "1").

Definition cards : list Card :=
  [card Sample.artB Sample.srcA; card Sample.artB Sample.srcB].

(** The news provider times out. *)
Definition fetchDown : World :=
  feedWorld (Normal Null) (Normal [Sample.srcA; Sample.srcB])
            (Throw (Error "timeout of 5000ms exceeded")) (Normal ()).

(** The cache holds a feed for the request. *)
Definition cacheHit : World :=
  feedWorld (Normal (Str "[]")) (Normal [Sample.srcA; Sample.srcB])
            (Normal [Sample.artB]) (Normal ()).

(** The cache cannot be reached, for reading or for writing. *)
Definition cacheDown : World :=
  feedWorld (Throw (Error "ECONNREFUSED")) (Normal [Sample.srcA; Sample.srcB])
            (Normal [Sample.artB]) (Normal ()).
Definition cacheReadOnly : World :=
  feedWorld (Normal Null) (Normal [Sample.srcA; Sample.srcB])
            (Normal [Sample.artB]) (Throw (Error "READONLY")).

(** Nothing selected, and nothing published. *)
Definition noSources : World :=
  feedWorld (Normal Null) (Normal []) (Normal [Sample.artB]) (Normal ()).
Definition noArticles : World :=
  feedWorld (Normal Null) (Normal [Sample.srcA; Sample.srcB]) (Normal []) (Normal ()).

(** A world of the [/article] route. *)
Definition articleWorld (cache : completion value) (page : completion value)
    (parsed : completion ArticleRoute.MercuryResult) (written : completion unit)
  : ArticleRoute.World :=
  λ X c,
    match c in ArticleRoute.Call X return completion X with
    | ArticleRoute.getCache _ => cache
    | ArticleRoute.axios_get _ => page
    | ArticleRoute.Mercury_parse _ _ => parsed
    | ArticleRoute.setCache _ _ _ => written
    end.

Definition page : value := Str "https://b.example/1".

(** Mercury finds an author, a text of 830 words and no title. *)
Definition mercury : ArticleRoute.MercuryResult :=
  {| ArticleRoute.title := Null;
     ArticleRoute.author := Str "Ann";
     ArticleRoute.date_published := Undefined;
     ArticleRoute.content := Str "<p>Budget vote</p>";
     ArticleRoute.word_count := Some (Double.ofZ 830) |}.

Definition extract : ArticleRoute.Extract :=
  {| ArticleRoute.extractTitle := Str "https://b.example/1";
     ArticleRoute.extractAuthor := Str "Ann";
     ArticleRoute.publishedAt := Str "";
     ArticleRoute.htmlContent := Str "<p>Budget vote</p>";
     ArticleRoute.readingTimeSec := Double.ofZ 250 |}.

Definition offline : ArticleRoute.World :=
  articleWorld (Normal Null) (Throw (Error "ENOTFOUND")) (Normal mercury) (Normal ()).

Definition encode : string → string := λ s, s.




(** A world of the [/reaction] route, and two request bodies. *)
Definition reactionWorld (saved : completion unit) : ReactionRoute.World :=
  λ X c,
    match c in ReactionRoute.Call X return completion X with
    | ReactionRoute.saveReaction _ => saved
    end.

Definition now : Double.double := Double.ofZ 1700000000000.

Definition liked : ReactionRoute.Body :=
  {| ReactionRoute.userId := Some (ReactionRoute.JStr "u1");
     ReactionRoute.articleId := Some (ReactionRoute.JStr "https://b.example/1");
     ReactionRoute.emoji := Some (ReactionRoute.JStr "like");
     ReactionRoute.ts := None |}.

Definition numbered : ReactionRoute.Body :=
  {| ReactionRoute.userId := Some (ReactionRoute.JStr "u1");
     ReactionRoute.articleId := Some (ReactionRoute.JNum (Double.ofZ 42));
     ReactionRoute.emoji := Some (ReactionRoute.JStr "like");
     ReactionRoute.ts := None |}.

End Scenario.

(** * Proofs *)

Section Assembly.

Context (articles : list Article).

Lemma find_Some src art :
  find src articles = Some art ↔
  ∃ k, articles !! k = Some art ∧ isMatch src art = true ∧
       ∀ j b, articles !! j = Some b → j < k → isMatch src b = false.
Proof.
  unfold find. split.
  - destruct (list_find _ articles) as [[k a]|] eqn:E; [|done].
    intros [= <-]. apply list_find_Some in E as (Hk & Hm & Hfirst).
    exists k. split_and!; [done| by apply Is_true_true |].
    intros j b Hj Hlt. specialize (Hfirst j b Hj Hlt).
    by apply negb_prop_intro, Is_true_true, negb_true_iff in Hfirst.
  - intros (k & Hk & Hm & Hfirst).
    assert (list_find (λ a, isMatch src a) articles = Some (k, art)) as ->; [|done].
    apply list_find_Some. split_and!; [done| by apply Is_true_true |].
    intros j b Hj Hlt. rewrite (Hfirst j b Hj Hlt). auto.
Qed.

Lemma find_None src :
  find src articles = None ↔ Forall (λ a, isMatch src a = false) articles.
Proof.
  unfold find. rewrite fmap_None, list_find_None.
  apply Forall_proper; [|done]. intros a.
  destruct (isMatch src a); naive_solver.
Qed.

Lemma find_elem_of src art : find src articles = Some art → art ∈ articles.
Proof.
  intros (k & Hk & _)%find_Some. by eapply list_elem_of_lookup_2.
Qed.

Lemma fallback_in_bounds n : articles ≠ [] → n mod length articles < length articles.
Proof.
  intros Hne. apply Nat.mod_upper_bound. by destruct articles.
Qed.

Lemma pick_is_Some n src : articles ≠ [] → is_Some (pick articles n src).
Proof.
  intros Hne. unfold pick. destruct (find src articles); [done|].
  by apply lookup_lt_is_Some, fallback_in_bounds.
Qed.

Lemma pick_elem_of n src art : pick articles n src = Some art → art ∈ articles.
Proof.
  unfold pick. destruct (find src articles) eqn:E.
  - intros [= <-]. by apply find_elem_of in E.
  - apply list_elem_of_lookup_2.
Qed.

(** One iteration, articles available: exactly one card is pushed. *)
Lemma slot_push cards src :
  articles ≠ [] →
  ∃ art, pick articles (length cards) src = Some art ∧
         slot articles cards src = Normal (cards ++ [card art src]).
Proof.
  intros Hne. destruct (pick_is_Some (length cards) src Hne) as [art Hart].
  exists art. split; [done|]. unfold slot, pick in *.
  destruct (find src articles); [by simplify_eq|].
  assert ((0 <? length articles) = true) as ->.
  { apply Nat.ltb_lt. destruct articles; [done | simpl; lia]. }
  unfold element. by rewrite Hart.
Qed.

(** One iteration, no articles: the slot is skipped. *)
Lemma slot_skip cards src : articles = [] → slot articles cards src = Normal cards.
Proof. by intros ->. Qed.

Lemma loop_filled sources cards :
  articles ≠ [] →
  ∃ out, forOf (slot articles) sources cards = Normal (cards ++ out) ∧
         filled articles (length cards) sources out.
Proof.
  intros Hne. revert cards. induction sources as [|src sources IH]; intros cards.
  - exists []. rewrite app_nil_r. split; [done | constructor].
  - destruct (slot_push cards src Hne) as (art & Hpick & Hslot).
    destruct (IH (cards ++ [card art src])) as (out & Hloop & Hout).
    exists (card art src :: out). simpl. rewrite Hslot. simpl. split.
    + by rewrite Hloop, <-app_assoc.
    + econstructor; [done|]. by rewrite length_app, Nat.add_1_r in Hout.
Qed.

Lemma loop_skipped sources cards :
  articles = [] → forOf (slot articles) sources cards = Normal cards.
Proof.
  intros ->. induction sources as [|src sources IH]; [done|]. simpl. apply IH.
Qed.

Lemma filled_length n sources cards :
  filled articles n sources cards → length cards = length sources.
Proof. induction 1; simpl; congruence. Qed.

Lemma filled_lookup n sources cards i src :
  filled articles n sources cards → sources !! i = Some src →
  ∃ art, pick articles (n + i) src = Some art ∧ cards !! i = Some (card art src).
Proof.
  intros H. revert i. induction H as [|n s sources art cards Hp _ IH]; intros i Hi; [done|].
  destruct i as [|i]; simpl in *.
  - simplify_eq. exists art. by rewrite Nat.add_0_r.
  - destruct (IH i Hi) as (a & Ha & Hc). exists a.
    by rewrite Nat.add_succ_r.
Qed.

Lemma filled_lookup_card n sources cards i c :
  filled articles n sources cards → cards !! i = Some c →
  ∃ src art, sources !! i = Some src ∧ pick articles (n + i) src = Some art ∧
             c = card art src.
Proof.
  intros H. revert i. induction H as [|n s sources art cards Hp _ IH]; intros i Hi; [done|].
  destruct i as [|i]; simpl in *.
  - simplify_eq. exists s, art. by rewrite Nat.add_0_r.
  - destruct (IH i Hi) as (src & a & Hs & Ha & Hc). exists src, a.
    by rewrite Nat.add_succ_r.
Qed.

Lemma filled_identity n sources cards :
  filled articles n sources cards → Forall2 identityOf sources cards.
Proof. induction 1; constructor; [by repeat split | done]. Qed.

Lemma filled_from_articles n sources cards :
  filled articles n sources cards →
  Forall2 (λ src c, identityOf src c ∧ ∃ art, art ∈ articles ∧ c = card art src)
          sources cards.
Proof.
  induction 1 as [|n src sources art cards Hp _ IH]; constructor; [|done].
  split; [by repeat split|].
  exists art. split; [by eapply pick_elem_of | done].
Qed.

Lemma forOf_app {A S} (body : S → A → completion S) l1 l2 s :
  forOf body (l1 ++ l2) s = forOf body l1 s ≫= forOf body l2.
Proof.
  revert s. induction l1 as [|a l1 IH]; intros s; [done|]. simpl.
  destruct (body s a); simpl; [apply IH | done].
Qed.

(** The state of the loop when it reaches slot [i], the push of that slot
    and the final array. *)
Lemma assemble_at sources i src :
  articles ≠ [] → sources !! i = Some src →
  ∃ emitted art rest,
    assembleCards (take i sources) articles = Normal emitted ∧
    length emitted = i ∧
    pick articles (length emitted) src = Some art ∧
    slot articles emitted src = Normal (emitted ++ [card art src]) ∧
    assembleCards sources articles = Normal (emitted ++ card art src :: rest).
Proof.
  intros Hne Hi. unfold assembleCards.
  destruct (loop_filled (take i sources) [] Hne) as (emitted & Hpre & Hfill).
  destruct (slot_push emitted src Hne) as (art & Hpick & Hslot).
  destruct (loop_filled (drop (S i) sources) (emitted ++ [card art src]) Hne)
    as (rest & Hpost & _).
  exists emitted, art, rest. simpl in Hpre. split_and!; try done.
  - apply filled_length in Hfill. rewrite Hfill, length_take.
    apply lookup_lt_Some in Hi. lia.
  - rewrite <-(take_drop_middle sources i src Hi) at 1.
    rewrite forOf_app, Hpre. simpl. rewrite Hslot. simpl.
    by rewrite Hpost, <-app_assoc.
Qed.

End Assembly.

(** ** The assembled cards *)

Lemma isMatch_true src a :
  isMatch src a = true ↔ ∃ nm, source a = SourceObj (Str (id src)) nm.
Proof.
  unfold isMatch. split.
  - destruct (source a) as [| |[| |t] nm]; simpl; try discriminate.
    intros ->%bool_decide_eq_true. by exists nm.
  - intros [nm ->]. simpl. by apply bool_decide_eq_true.
Qed.

(** The loop never throws, and its result is described by [filled]. *)
Lemma assemble_total sources articles :
  ∃ cards, assembleCards sources articles = Normal cards ∧
           filled articles 0 (emittingSources sources articles) cards.
Proof.
  destruct articles as [|a l].
  - exists []. split; [by apply loop_skipped | constructor].
  - destruct (loop_filled (a :: l) sources []) as (out & Hloop & Hfill); [done|].
    by exists out.
Qed.

(** C1. Every card the assembly emits carries the [sourceId], [sourceName]
    and [side] of the source of its slot, whichever article fills it; so
    every emitted [sourceId] is the id of one of the input sources. *)
Theorem card_identity_from_slot_source sources articles :
  ∃ cards, assembleCards sources articles = Normal cards ∧
           Forall2 identityOf (emittingSources sources articles) cards ∧
           Forall (λ c, sourceId c ∈ id <$> sources) cards.
Proof.
  destruct (assemble_total sources articles) as (cards & Hrun & Hfill).
  exists cards. split; [done|].
  apply filled_identity in Hfill. split; [done|].
  apply Forall_forall. intros c [j Hj]%list_elem_of_lookup.
  destruct (Forall2_lookup_r _ _ _ _ _ Hfill Hj) as (src & Hsrc & Hid & _).
  rewrite Hid. apply list_elem_of_fmap_2.
  unfold emittingSources in Hsrc. destruct articles; [done|].
  by eapply list_elem_of_lookup_2.
Qed.

(** With articles available every earlier slot has pushed its card, so the
    emission count a slot sees is its position in [sources]. *)
Lemma emission_count_is_loop_index sources articles i emitted :
  articles ≠ [] → i < length sources →
  assembleCards (take i sources) articles = Normal emitted → length emitted = i.
Proof.
  intros Hne Hi Hrun.
  destruct (lookup_lt_is_Some_2 sources i Hi) as [src Hsrc].
  destruct (assemble_at articles sources i src Hne Hsrc) as (e & _ & _ & He & Hlen & _).
  congruence.
Qed.

(** C2. With articles available, a slot whose source has no exact match is
    filled from the article at index (cards emitted so far) mod (number of
    articles): the card pushed has that article's url (as [articleId] and
    [url]), title, image URL and publication time, and the identity of the
    slot's source.  The cards emitted so far are what the loop has built
    from the sources before the slot. *)
Theorem fallback_index_is_emission_count sources articles i src :
  articles ≠ [] → sources !! i = Some src → find src articles = None →
  ∃ emitted fallbackArticle cards,
    assembleCards (take i sources) articles = Normal emitted ∧
    articles !! (length emitted mod length articles) = Some fallbackArticle ∧
    slot articles emitted src
    = Normal (emitted ++ [ {| articleId := url fallbackArticle;
                              cardTitle := title fallbackArticle;
                              sourceId := id src;
                              sourceName := name src;
                              imageUrl := urlToImage fallbackArticle;
                              cardUrl := url fallbackArticle;
                              cardPublishedAt := publishedAt fallbackArticle;
                              cardSide := side src |} ]) ∧
    assembleCards sources articles = Normal cards ∧
    take (length emitted) cards = emitted ∧
    cards !! length emitted
    = Some {| articleId := url fallbackArticle;
              cardTitle := title fallbackArticle;
              sourceId := id src;
              sourceName := name src;
              imageUrl := urlToImage fallbackArticle;
              cardUrl := url fallbackArticle;
              cardPublishedAt := publishedAt fallbackArticle;
              cardSide := side src |}.
Proof.
  intros Hne Hi Hfind.
  destruct (assemble_at articles sources i src Hne Hi)
    as (emitted & art & rest & Hpre & Hlen & Hpick & Hslot & Hall).
  exists emitted, art, (emitted ++ card art src :: rest).
  unfold pick in Hpick. rewrite Hfind in Hpick.
  split_and!; try done.
  - by rewrite take_app_length.
  - by rewrite list_lookup_middle.
Qed.

(** C3. When some article matches the source of slot [i], the card of that
    slot is built from the first matching article of [articles]: its url (as
    [articleId] and [url]), title, image URL and publication time, with the
    identity fields of the source. *)
Theorem exact_match_uses_first_article sources articles i src :
  sources !! i = Some src →
  (∃ a, a ∈ articles ∧ isMatch src a = true) →
  ∃ k art cards,
    articles !! k = Some art ∧ isMatch src art = true ∧
    (∀ j b, articles !! j = Some b → j < k → isMatch src b = false) ∧
    assembleCards sources articles = Normal cards ∧
    cards !! i = Some {| articleId := url art;
                         cardTitle := title art;
                         sourceId := id src;
                         sourceName := name src;
                         imageUrl := urlToImage art;
                         cardUrl := url art;
                         cardPublishedAt := publishedAt art;
                         cardSide := side src |}.
Proof.
  intros Hi (a & Ha & Hm).
  destruct (find src articles) as [art|] eqn:Hfind.
  2:{ apply find_None in Hfind. rewrite Forall_forall in Hfind.
      specialize (Hfind a Ha). congruence. }
  assert (articles ≠ []) as Hne by (intros ->; by apply elem_of_nil in Ha).
  destruct (assemble_at articles sources i src Hne Hi)
    as (emitted & art' & rest & _ & Hlen & Hpick & _ & Hall).
  unfold pick in Hpick. rewrite Hfind in Hpick. simplify_eq.
  apply find_Some in Hfind as (k & Hk & Hmk & Hfirst).
  exists k, art'. eexists. split_and!; try done.
  by rewrite list_lookup_middle.
Qed.

(** C4. With articles available the output has one card per source, and the
    card at each position is built for the source at that position. *)
Theorem one_card_per_source_in_order sources articles :
  articles ≠ [] →
  ∃ cards, assembleCards sources articles = Normal cards ∧
           length cards = length sources ∧
           Forall2 (λ src c, identityOf src c ∧
                             ∃ art, art ∈ articles ∧ c = card art src)
                   sources cards.
Proof.
  intros Hne.
  destruct (loop_filled articles sources [] Hne) as (cards & Hrun & Hfill).
  exists cards. split_and!; [done | by eapply filled_length |].
  by eapply filled_from_articles.
Qed.

(** Slot 4 of five, three articles, none of a selected source: four cards
    have been emitted, so the slot shows the article at index 4 mod 3 = 1. *)
Lemma fallback_index_is_emission_count_witness :
  ∃ emitted cards,
    assembleCards (take 4 Scenario.fiveSlots) Scenario.strangers = Normal emitted ∧
    length emitted = 4 ∧
    Scenario.strangers !! (length emitted mod length Scenario.strangers)
    = Some Scenario.artC ∧
    assembleCards Scenario.fiveSlots Scenario.strangers = Normal cards ∧
    cards !! 4
    = Some {| articleId := Str "https://c.example/3";
              cardTitle := Str "Harvest";
              sourceId := "A";
              sourceName := "Alpha";
              imageUrl := Str "https://c.example/3.png";
              cardUrl := Str "https://c.example/3";
              cardPublishedAt := Str "2024-05-03";
              cardSide := "LEFT" |}.
Proof.
  destruct (fallback_index_is_emission_count
              Scenario.fiveSlots Scenario.strangers 4 Sample.srcA)
    as (emitted & fb & cards & Hpre & Hfb & _ & Hall & _ & Hcard);
    [discriminate | reflexivity | reflexivity |].
  assert (length emitted = 4) as Hlen.
  { pose proof Hpre as Hpre'. vm_compute in Hpre'. injection Hpre' as <-. reflexivity. }
  rewrite Hlen in Hfb, Hcard.
  assert (fb = Scenario.artC) as ->.
  { pose proof Hfb as Hfb'. vm_compute in Hfb'. injection Hfb' as <-. reflexivity. }
  exists emitted, cards. rewrite Hlen.
  split_and!; [exact Hpre | reflexivity | reflexivity | exact Hall | exact Hcard].
Defined.

Lemma exact_match_uses_first_article_witness :
  ∃ k art cards,
    [Sample.artAnon; Sample.artB] !! k = Some art ∧ isMatch Sample.srcB art = true ∧
    (∀ j b, [Sample.artAnon; Sample.artB] !! j = Some b → j < k →
            isMatch Sample.srcB b = false) ∧
    assembleCards [Sample.srcA; Sample.srcB] [Sample.artAnon; Sample.artB] = Normal cards ∧
    cards !! 1 = Some {| articleId := url art;
                         cardTitle := title art;
                         sourceId := "B";
                         sourceName := "Beta";
                         imageUrl := urlToImage art;
                         cardUrl := url art;
                         cardPublishedAt := publishedAt art;
                         cardSide := "RIGHT" |}.
Proof.
  apply (exact_match_uses_first_article
           [Sample.srcA; Sample.srcB] [Sample.artAnon; Sample.artB] 1 Sample.srcB);
    [reflexivity|].
  exists Sample.artB. split; [|reflexivity].
  apply list_elem_of_lookup. exists 1. reflexivity.
Defined.

Lemma one_card_per_source_in_order_witness :
  ∃ cards,
    assembleCards [Sample.srcA; Sample.srcB] [Sample.artB] = Normal cards ∧
    length cards = 2 ∧
    Forall2 (λ src c, identityOf src c ∧
                      ∃ art, art ∈ [Sample.artB] ∧ c = card art src)
            [Sample.srcA; Sample.srcB] cards.
Proof.
  apply (one_card_per_source_in_order [Sample.srcA; Sample.srcB] [Sample.artB]).
  discriminate.
Defined.

(** C5, as stated, fails: with no source to fill, the output is empty
    although an article is there. *)
Lemma empty_output_despite_articles :
  ¬ (assembleCards [] [Sample.artB] = Normal [] ↔ [Sample.artB] = []).
Proof. intros [H _]. discriminate (H eq_refl). Qed.

(** C5, amended. The output is empty exactly when there is no article or no
    source; the handler runs the assembly only when it has selected at least
    one source, and then the output is empty iff there is no article. *)
Theorem empty_iff_no_articles_or_no_sources sources articles :
  assembleCards sources articles = Normal [] ↔ articles = [] ∨ sources = [].
Proof.
  split.
  - intros Hrun. destruct articles as [|a l]; [by left|]. right.
    destruct (loop_filled (a :: l) sources []) as (out & Hloop & Hfill); [done|].
    unfold assembleCards in Hrun. rewrite Hloop in Hrun. simpl in Hrun.
    injection Hrun as ->. apply filled_length in Hfill.
    by destruct sources.
  - intros [-> | ->]; [by apply loop_skipped | done].
Qed.

(** C6. The assembly is total: it returns cards for all inputs, every
    iteration pushes one card or leaves the array as it is, and under the
    guard [articles.length > 0] the modulus is not zero and the fallback
    index addresses an element of [articles]. *)
Theorem assembly_never_throws sources articles :
  (∃ cards, assembleCards sources articles = Normal cards) ∧
  (∀ cards src, slot articles cards src = Normal cards ∨
                ∃ c, slot articles cards src = Normal (cards ++ [c])) ∧
  (∀ n, (0 <? length articles) = true →
        length articles ≠ 0 ∧
        n mod length articles < length articles ∧
        ∃ a, element articles (n mod length articles) = Normal a).
Proof.
  split_and!.
  - destruct (assemble_total sources articles) as (cards & Hrun & _). eauto.
  - intros cards src. destruct articles as [|a l] eqn:E.
    + left. by apply slot_skip.
    + right. destruct (slot_push (a :: l) cards src) as (art & _ & Hslot); [done|].
      eauto.
  - intros n Hguard%Nat.ltb_lt.
    assert (articles ≠ []) as Hne by (intros ->; simpl in Hguard; lia).
    split_and!; [lia | by apply fallback_in_bounds |].
    unfold element.
    destruct (lookup_lt_is_Some_2 articles (n mod length articles)) as [a ->];
      [by apply fallback_in_bounds | eauto].
Qed.

Lemma assembly_never_throws_witness :
  length [Sample.artAnon; Sample.artB] ≠ 0 ∧
  5 mod length [Sample.artAnon; Sample.artB] < length [Sample.artAnon; Sample.artB] ∧
  ∃ a, element [Sample.artAnon; Sample.artB]
               (5 mod length [Sample.artAnon; Sample.artB]) = Normal a.
Proof.
  destruct (assembly_never_throws [Sample.srcA] [Sample.artAnon; Sample.artB])
    as (_ & _ & Hguard).
  apply Hguard. reflexivity.
Defined.

(** C9. In every emitted card [articleId] and [url] are equal, and both are
    the url of the article chosen for the card's slot: the first article of
    the slot's source, or else the article at index (position of the slot)
    mod (number of articles). *)
Theorem articleId_equals_url sources articles :
  ∃ cards, assembleCards sources articles = Normal cards ∧
           Forall (λ c, articleId c = cardUrl c) cards ∧
           ∀ i c, cards !! i = Some c →
                  ∃ src art,
                    sources !! i = Some src ∧
                    (find src articles = Some art ∨
                     find src articles = None ∧
                     articles !! (i mod length articles) = Some art) ∧
                    articleId c = url art ∧ cardUrl c = url art.
Proof.
  destruct (assemble_total sources articles) as (cards & Hrun & Hfill).
  exists cards. split; [done|]. split.
  - clear Hrun.
    induction Hfill as [|n src rest art cards _ _ IH]; [constructor|].
    constructor; [reflexivity | exact IH].
  - intros i c Hc.
    destruct (filled_lookup_card articles 0 _ cards i c Hfill Hc)
      as (src & art & Hsrc & Hpick & ->).
    exists src, art. split_and!; try done.
    + unfold emittingSources in Hsrc. by destruct articles.
    + unfold pick in Hpick. simpl in Hpick.
      destruct (find src articles) as [a|] eqn:Hf; [left | right]; by simplify_eq.
Qed.

Lemma articleId_equals_url_witness :
  ∃ cards c,
    assembleCards Scenario.fiveSlots Scenario.strangers = Normal cards ∧
    cards !! 3 = Some c ∧
    articleId c = Str "https://w.example/7" ∧ cardUrl c = Str "https://w.example/7".
Proof.
  destruct (articleId_equals_url Scenario.fiveSlots Scenario.strangers)
    as (cards & Hrun & _ & Hurl).
  assert (∃ c, cards !! 3 = Some c) as [c Hc].
  { vm_compute in Hrun. injection Hrun as <-. eexists. reflexivity. }
  destruct (Hurl 3 c Hc) as (src & art & Hsrc & Hchosen & Hid & Hcu).
  assert (src = Sample.srcB) as ->.
  { pose proof Hsrc as Hsrc'. vm_compute in Hsrc'. injection Hsrc' as <-. reflexivity. }
  assert (art = Sample.artAnon) as ->.
  { destruct Hchosen as [Hf | [_ Hfb]]; [discriminate Hf|].
    vm_compute in Hfb. injection Hfb as <-. reflexivity. }
  exists cards, c. split_and!; [exact Hrun | exact Hc | exact Hid | exact Hcu].
Defined.

(** C10. An article whose [source] is missing or [null] matches no source
    and is never what [find] returns, yet it fills a slot as the fallback
    whenever the fallback index lands on it. *)
Theorem sourceless_article_only_fallback a :
  source a = SourceAbsent ∨ source a = SourceNull →
  (∀ src, isMatch src a = false) ∧
  (∀ src articles, find src articles ≠ Some a) ∧
  (∀ sources articles i src,
     sources !! i = Some src → find src articles = None →
     articles !! (i mod length articles) = Some a →
     ∃ cards, assembleCards sources articles = Normal cards ∧
              cards !! i = Some (card a src)).
Proof.
  intros Hsrc.
  assert (∀ src, isMatch src a = false) as Hno.
  { intros src. unfold isMatch. by destruct Hsrc as [-> | ->]. }
  split_and!; [done | |].
  - intros src articles (k & _ & Hm & _)%find_Some. by rewrite Hno in Hm.
  - intros sources articles i src Hi Hfind Hfb.
    assert (articles ≠ []) as Hne by (intros ->; done).
    destruct (assemble_at articles sources i src Hne Hi)
      as (emitted & art & rest & _ & Hlen & Hpick & _ & Hall).
    unfold pick in Hpick. rewrite Hfind, Hlen, Hfb in Hpick. simplify_eq.
    eexists. split; [done|]. by rewrite list_lookup_middle.
Qed.

Lemma sourceless_article_only_fallback_witness :
  isMatch Sample.srcA Sample.artAnon = false ∧
  ∃ cards, assembleCards [Sample.srcA; Sample.srcB] [Sample.artAnon; Sample.artB]
             = Normal cards ∧
           cards !! 0 = Some (card Sample.artAnon Sample.srcA).
Proof.
  destruct (sourceless_article_only_fallback Sample.artAnon) as (Hno & _ & Hfb);
    [right; reflexivity |].
  split; [apply Hno|].
  apply (Hfb [Sample.srcA; Sample.srcB] [Sample.artAnon; Sample.artB] 0 Sample.srcA);
    reflexivity.
Defined.

(** ** The selected sources *)

Section SelectorFacts.

Context (catalog : list Source) (slots : nat) (metric : Q * Q → Q * Q → Q).
Context (qx qy : Q).

Local Abbreviation ranked := (merge_sort (λ s t, closer metric (qx, qy) s t) catalog).

Lemma ranked_catalog : ranked ≡ₚ catalog.
Proof. apply merge_sort_Permutation. Qed.

Lemma selectSources_sublist :
  selectSources catalog slots metric qx qy `sublist_of` ranked.
Proof. apply sublist_take. Qed.

Lemma selectSources_all :
  length catalog ≤ slots → selectSources catalog slots metric qx qy = ranked.
Proof.
  intros Hle. apply take_ge. by rewrite ranked_catalog.
Qed.

End SelectorFacts.

(** C7. For every query coordinate the selector returns at most [slots]
    sources (4 in the deployed feed), with pairwise distinct identifiers,
    each an entry of the catalog; a catalog with no more entries than slots
    is returned whole, and an empty catalog gives an empty sequence. *)
Theorem selectSources_bounded_distinct_from_catalog
    (catalog : list Source) (slots : nat) (metric : Q * Q → Q * Q → Q) (qx qy : Q) :
  NoDup (id <$> catalog) →
  length (selectSources catalog slots metric qx qy) ≤ slots ∧
  NoDup (id <$> selectSources catalog slots metric qx qy) ∧
  selectSources catalog slots metric qx qy ⊆ catalog ∧
  (length catalog ≤ slots → selectSources catalog slots metric qx qy ≡ₚ catalog) ∧
  (catalog = [] → selectSources catalog slots metric qx qy = []).
Proof.
  intros Hids. split_and!.
  - unfold selectSources. rewrite length_take. lia.
  - eapply sublist_NoDup; [|apply fmap_sublist, selectSources_sublist].
    by rewrite ranked_catalog.
  - intros s Hs. rewrite <-(ranked_catalog catalog metric qx qy).
    eapply elem_of_sublist; [done | apply selectSources_sublist].
  - intros Hle. rewrite selectSources_all by done. apply ranked_catalog.
  - intros ->. unfold selectSources. by destruct slots.
Qed.

Lemma selectSources_bounded_distinct_from_catalog_witness :
  NoDup (id <$> [Sample.srcB; Sample.srcA]) ∧
  selectSources [Sample.srcB; Sample.srcA] 4 euclid2 1 1 = [Sample.srcA; Sample.srcB] ∧
  length (selectSources [Sample.srcB; Sample.srcA] 4 euclid2 1 1) ≤ 4 ∧
  NoDup (id <$> selectSources [Sample.srcB; Sample.srcA] 4 euclid2 1 1) ∧
  selectSources [Sample.srcB; Sample.srcA] 4 euclid2 1 1 ≡ₚ [Sample.srcB; Sample.srcA].
Proof.
  assert (NoDup (id <$> [Sample.srcB; Sample.srcA])) as Hids.
  { apply NoDup_cons. split; [|apply NoDup_singleton].
    intros H%list_elem_of_singleton. discriminate H. }
  destruct (selectSources_bounded_distinct_from_catalog
              [Sample.srcB; Sample.srcA] 4 euclid2 1 1 Hids)
    as (Hlen & Hnodup & _ & Hall & _).
  split_and!; [exact Hids | reflexivity | exact Hlen | exact Hnodup |].
  apply Hall. simpl. lia.
Defined.

(** ** The coordinate guard of the gateway *)

(** Decides whether a given event occurs in an explicit log. *)
Local Ltac scan_log :=
  let H := fresh "Hlog" in
  intros H;
  repeat (apply elem_of_cons in H as [H|H];
          [first [discriminate H | by simplify_eq] |]);
  by apply elem_of_nil in H.

(** Past the guard, the only coordinates handed to the selector are the two
    parsed ones. *)
Lemma feed_log_SourcesPicked E w req px py :
  SourcesPicked px py ∈ (run w (feed E req)).2 →
  px = parseFloat (query_x req) ∧ py = parseFloat (query_y req) ∧
  isNaN px = false ∧ isNaN py = false.
Proof.
  unfold feed.
  destruct (isNaN (parseFloat (query_x req)) || isNaN (parseFloat (query_y req))) eqn:G.
  { simpl. scan_log. }
  apply orb_false_elim in G as [Gx Gy].
  set (key := "feed:" +:+ _). simpl.
  destruct (w _ (getCache key)) as [cached|e]; simpl; [|scan_log].
  destruct (truthy cached); simpl.
  { unfold JSON_parse. destruct (isJSON E _); simpl; scan_log. }
  destruct (w _ (pickSources _ _)) as [sources|e]; simpl; [|scan_log].
  destruct (length sources =? 0); simpl; [scan_log|].
  destruct (w _ (getArticlesBySources _)) as [articles|e]; simpl; [|scan_log].
  destruct (assembleCards sources articles) as [cards|e]; simpl; [|scan_log].
  destruct (0 <? length cards); simpl; [|scan_log].
  destruct (w _ (setCache _ _ _)) as [[]|e]; simpl; scan_log.
Qed.

(** ** The scenario of the feed, run *)

(** Source A has no article of its own and shows B's; B shows its own. *)
Example scenario_fallback_then_exact :
  assembleCards [Sample.srcA; Sample.srcB] [Sample.artB]
  = Normal [card Sample.artB Sample.srcA; card Sample.artB Sample.srcB].
Proof. reflexivity. Qed.

Example scenario_no_articles :
  assembleCards [Sample.srcA; Sample.srcB] [] = Normal [].
Proof. reflexivity. Qed.

Example scenario_selector :
  selectSources [Sample.srcA; Sample.srcB] 4 euclid2 1 1 = [Sample.srcA; Sample.srcB] ∧
  selectSources [] 4 euclid2 1 1 = [].
Proof. split; reflexivity. Qed.

Example parseFloat_samples :
  parseFloat Undefined = NaN ∧
  parseFloat (Str "") = NaN ∧
  parseFloat (Str "north") = NaN ∧
  parseFloat (Str "  -12.25e1 km") = Finite (-245 # 2) ∧
  parseFloat (Str ".5") = Finite (1 # 2) ∧
  parseFloat (Str "7e") = Finite 7 ∧
  parseFloat (Str "-Infinity") = Infinity true.
Proof. repeat split; reflexivity. Qed.

(** A full run: cache miss, selection, fetch, assembly, cache write. *)
Example scenario_feed_run :
  run Sample.world (feed Sample.engine (mkRequest (Str "1") (Str "1")))
  = (Normal (json (CardsJson [card Sample.artB Sample.srcA; card Sample.artB Sample.srcB])),
     [CacheRead "feed:0.000:0.000";
      SourcesPicked (Finite 1) (Finite 1);
      ArticlesFetched ["A"; "B"];
      CacheWritten "feed:0.000:0.000"
        [card Sample.artB Sample.srcA; card Sample.artB Sample.srcB] 1800]).
Proof. reflexivity. Qed.

(** * Further properties of the gateway *)

(** ** Every run of [/feed] follows one of the paths *)

Lemma fresh_path E w req :
  ∃ resp log,
    run w (tryCatch
             (sources ← call (pickSources (parseFloat (query_x req))
                                          (parseFloat (query_y req)));
              if length sources =? 0 then Ret (json (CardsJson []))
              else
                articles ← call (getArticlesBySources (id <$> sources));
                cards ← lift (assembleCards sources articles);
                _ ← (if 0 <? length cards
                     then call (setCache (feedKey E req) cards 1800)
                     else Ret ());
                Ret (json (CardsJson cards)))
             (λ e, Ret (feedFailure e)))
    = (Normal resp,
       SourcesPicked (parseFloat (query_x req)) (parseFloat (query_y req)) :: log) ∧
    FreshPath E w req resp log.
Proof.
  simpl.
  destruct (w _ (pickSources _ _)) as [sources|e] eqn:Hpick; simpl.
  2:{ eexists _, _. split; [done | by apply fresh_selector_down]. }
  destruct (length sources =? 0) eqn:Hlen; simpl.
  { apply Nat.eqb_eq, nil_length_inv in Hlen as ->.
    eexists _, _. split; [done | by apply fresh_no_sources]. }
  assert (sources ≠ []) as Hne by (intros ->; discriminate Hlen).
  destruct (w _ (getArticlesBySources _)) as [articles|e] eqn:Hfetch; simpl.
  2:{ eexists _, _. split; [done | by eapply fresh_fetch_down]. }
  destruct (assemble_total sources articles) as (cards & Hcards & _).
  rewrite Hcards. simpl.
  destruct (0 <? length cards) eqn:Hcount; simpl.
  2:{ apply Nat.ltb_ge, Nat.le_0_r, nil_length_inv in Hcount as ->.
      eexists _, _. split; [done | by eapply fresh_no_cards]. }
  assert (cards ≠ []) as Hcne by (intros ->; discriminate Hcount).
  destruct (w _ (setCache _ _ _)) as [[]|e] eqn:Hset; simpl.
  - eexists _, _. split; [done | by eapply fresh_served].
  - eexists _, _. split; [done | by eapply fresh_cache_write_down].
Qed.

Lemma feed_path E w req :
  ∃ resp log, run w (feed E req) = (Normal resp, log) ∧ FeedPath E w req resp log.
Proof.
  unfold feed.
  destruct (isNaN (parseFloat (query_x req)) || isNaN (parseFloat (query_y req))) eqn:G.
  { eexists _, _. split; [done | by apply path_rejected]. }
  fold (feedKey E req). simpl.
  destruct (w _ (getCache (feedKey E req))) as [cached|e] eqn:Hget; simpl.
  2:{ eexists _, _. split; [done | by apply path_cache_down]. }
  destruct (truthy cached) eqn:Hhit; simpl.
  { unfold JSON_parse. destruct (isJSON E (ToString cached)) eqn:Hjson; simpl.
    - eexists _, _. split; [done | by eapply path_cache_hit].
    - eexists _, _. split; [done | by eapply path_cache_garbled]. }
  destruct (fresh_path E w req) as (resp & log & Hrun & Hpath).
  exists resp, (CacheRead (feedKey E req)
                :: SourcesPicked (parseFloat (query_x req)) (parseFloat (query_y req))
                :: log).
  split; [|by eapply path_fresh].
  match goal with
  | |- (let '(r, l) := ?rest in _) = _ =>
      assert (rest = (Normal resp,
                      SourcesPicked (parseFloat (query_x req))
                                    (parseFloat (query_y req)) :: log)) as ->
        by exact Hrun
  end.
  reflexivity.
Qed.

Lemma feed_run_inv E w req r log :
  run w (feed E req) = (r, log) →
  ∃ resp, r = Normal resp ∧ FeedPath E w req resp log.
Proof.
  intros Hrun. destruct (feed_path E w req) as (resp & log' & Hrun' & Hpath).
  exists resp. rewrite Hrun' in Hrun. by simplify_eq.
Qed.

(** Case analysis of a run: one goal per way through the handler. *)
Local Ltac feed_paths E w req :=
  let resp := fresh "resp" in
  let log := fresh "log" in
  let Hrun := fresh "Hrun" in
  let Hpath := fresh "Hpath" in
  let Hfresh := fresh "Hfresh" in
  destruct (feed_path E w req) as (resp & log & Hrun & Hpath);
  rewrite Hrun; simpl;
  destruct Hpath as [? | ? ? ? | ? ? ? ? ? | ? ? ? ? ? | ? ? ? ? ? ? Hfresh];
  [ | | | | destruct Hfresh ].

(** For parameters that are missing or strings the handler answers,
    whatever its collaborators do. *)
Lemma feed_answers (E : Engine) (w : World) (req : Request) :
  ∃ resp, (run w (feed E req)).1 = Normal resp ∧
          (status resp = 200 ∨ status resp = 400 ∨ status resp = 500).
Proof.
  feed_paths E w req; eexists; (split; [reflexivity|]); simpl; auto.
Qed.

(** X2. A 500 reports the message of what was caught: the exception of the
    call made last, which a collaborator rejected, the [SyntaxError] of
    [JSON.parse] on the cached text, with the message the engine gives it,
    or an exception of the card assembly. *)
Theorem feed_500_reports_failed_collaborator (E : Engine) (w : World) (req : Request) :
  ∀ resp, (run w (feed E req)).1 = Normal resp → status resp = 500 →
  ∃ e, body resp = ErrorJson "Failed to fetch articles" (Some (message e)) ∧
       ((∃ X (c : Call X), last (run w (feed E req)).2 = Some (eventOf c) ∧
                           w X c = Throw e) ∨
        (∃ cached, w _ (getCache (feedKey E req)) = Normal cached ∧
                   truthy cached = true ∧ isJSON E (ToString cached) = false ∧
                   e = SyntaxError (jsonError E (ToString cached))) ∨
        (∃ sources articles,
           w _ (pickSources (parseFloat (query_x req)) (parseFloat (query_y req)))
             = Normal sources ∧
           w _ (getArticlesBySources (id <$> sources)) = Normal articles ∧
           assembleCards sources articles = Throw e)).
Proof.
  intros resp0. feed_paths E w req; intros [= <-] Hst; try discriminate Hst.
  - exists e. split; [done|]. left. by eexists _, (getCache _).
  - eexists. split; [done|]. right. left. by exists cached.
  - exists e. split; [done|]. left. by eexists _, (pickSources _ _).
  - exists e. split; [done|]. left. by eexists _, (getArticlesBySources _).
  - exists e. split; [done|]. left. by eexists _, (setCache _ _ _).
Qed.

(** Splits membership in an explicit log into the entries that can match. *)
Local Ltac log_inv H :=
  first [ by apply elem_of_nil in H
        | apply elem_of_cons in H as [H|H]; [try discriminate H | log_inv H] ].

(** X3. The cache is written only with a non-empty list of cards that the
    assembly has just built from the selected sources and the fetched
    articles, under the key that was read, for 1800 seconds. *)
Theorem feed_caches_only_assembled_cards
    (E : Engine) (w : World) (req : Request) k cards ttl :
  CacheWritten k cards ttl ∈ (run w (feed E req)).2 →
  k = feedKey E req ∧ ttl = 1800 ∧ cards ≠ [] ∧
  ∃ sources articles,
    w _ (pickSources (parseFloat (query_x req)) (parseFloat (query_y req)))
      = Normal sources ∧
    w _ (getArticlesBySources (id <$> sources)) = Normal articles ∧
    assembleCards sources articles = Normal cards.
Proof.
  feed_paths E w req; intros Hin; log_inv Hin; simplify_eq; eauto 10.
Qed.

(** X4. A fresh, non-empty list of cards is served only after it has been
    written to the cache: the write is the last call and it succeeded. *)
Theorem feed_serves_what_it_cached (E : Engine) (w : World) (req : Request) :
  ∀ resp cards,
    (run w (feed E req)).1 = Normal resp → body resp = CardsJson cards → cards ≠ [] →
    status resp = 200 ∧
    last (run w (feed E req)).2 = Some (CacheWritten (feedKey E req) cards 1800) ∧
    w _ (setCache (feedKey E req) cards 1800) = Normal ().
Proof.
  intros resp0 cards0.
  feed_paths E w req; intros [= <-] Hbody Hne; simpl in Hbody; simplify_eq.
  by split_and!.
Qed.

(** X5. On a cache hit the handler makes no further call: the cached text is
    parsed and served, and a text [JSON.parse] does not accept gives a 500
    with the message of its [SyntaxError]. *)
Theorem feed_cache_hit_short_circuits (E : Engine) (w : World) (req : Request) cached :
  isNaN (parseFloat (query_x req)) || isNaN (parseFloat (query_y req)) = false →
  w _ (getCache (feedKey E req)) = Normal cached → truthy cached = true →
  (run w (feed E req)).2 = [CacheRead (feedKey E req)] ∧
  (run w (feed E req)).1
  = Normal (if isJSON E (ToString cached) then json (ParsedJson (ToString cached))
            else feedFailure (SyntaxError (jsonError E (ToString cached)))).
Proof.
  intros Hok Hget Hhit.
  feed_paths E w req; try congruence.
  all: match goal with
       | H : _ = Normal ?c, H' : truthy ?c = true |- _ =>
           assert (c = cached) as -> by congruence
       end.
  all: match goal with H : isJSON _ _ = _ |- _ => by rewrite H end.
Qed.

(** X6. The calls of a run are an initial part of: read the cache, select
    the sources, fetch the articles, write the cache.  No call is repeated
    and none is made before the one it follows here. *)
Theorem feed_call_order (E : Engine) (w : World) (req : Request) :
  ∃ ids cards,
    (run w (feed E req)).2 `prefix_of`
      [CacheRead (feedKey E req);
       SourcesPicked (parseFloat (query_x req)) (parseFloat (query_y req));
       ArticlesFetched ids;
       CacheWritten (feedKey E req) cards 1800].
Proof.
  feed_paths E w req.
  1-6: exists [], []; by eexists.
  1-2: exists (id <$> sources), []; by eexists.
  1-2: exists (id <$> sources), cards; by eexists.
Qed.

(** Two answers to the same call, or two results of the same assembly, are
    the same. *)
Local Ltac same_answers :=
  repeat match goal with
         | H1 : ?l = Normal ?a, H2 : ?l = Normal ?b |- _ =>
             tryif constr_eq a b then fail
             else (assert (a = b) by congruence; simplify_eq)
         end.

(** X7. A cache miss with sources selected, articles fetched and the cache
    writable is answered with one card per selected source, in the order of
    the selection, each with the identity of its source; the four calls are
    made in order. *)
Theorem feed_fresh_one_card_per_source
    (E : Engine) (w : World) (req : Request) cached sources articles :
  isNaN (parseFloat (query_x req)) || isNaN (parseFloat (query_y req)) = false →
  w _ (getCache (feedKey E req)) = Normal cached → truthy cached = false →
  w _ (pickSources (parseFloat (query_x req)) (parseFloat (query_y req)))
    = Normal sources →
  sources ≠ [] →
  w _ (getArticlesBySources (id <$> sources)) = Normal articles →
  articles ≠ [] →
  (∀ cards, w _ (setCache (feedKey E req) cards 1800) = Normal ()) →
  ∃ cards,
    run w (feed E req)
    = (Normal (json (CardsJson cards)),
       [CacheRead (feedKey E req);
        SourcesPicked (parseFloat (query_x req)) (parseFloat (query_y req));
        ArticlesFetched (id <$> sources);
        CacheWritten (feedKey E req) cards 1800]) ∧
    length cards = length sources ∧
    Forall2 identityOf sources cards.
Proof.
  intros Hok Hget Hmiss Hpick Hsrc Hfetch Harts Hset.
  destruct (loop_filled articles sources [] Harts) as (cards & Hcards & Hfill).
  change (assembleCards sources articles = Normal cards) in Hcards.
  assert (length cards = length sources) as Hlen by (by eapply filled_length).
  exists cards. split_and!; [|done | by eapply filled_identity].
  destruct (feed_path E w req) as (resp & log & Hrun & Hpath).
  rewrite Hrun.
  destruct Hpath as [? | ? ? ? | ? ? ? ? ? | ? ? ? ? ? | ? ? ? ? ? ? Hfresh];
    try congruence.
  destruct Hfresh; same_answers; try congruence; try done.
  all: match goal with
       | H : length [] = length ?l, H' : ?l ≠ [] |- _ => by destruct l
       | H : _ = Throw _ |- _ => rewrite Hset in H; discriminate H
       end.
Qed.

(** X8. A failing cache fails the request.  When the read is rejected the
    handler answers 500 without selecting or fetching; when the write is
    rejected it answers 500 although the cards were assembled. *)
Theorem feed_cache_outage (E : Engine) (w : World) (req : Request) :
  isNaN (parseFloat (query_x req)) || isNaN (parseFloat (query_y req)) = false →
  (∀ e, w _ (getCache (feedKey E req)) = Throw e →
        run w (feed E req) = (Normal (feedFailure e), [CacheRead (feedKey E req)])) ∧
  (∀ k cards ttl e,
     CacheWritten k cards ttl ∈ (run w (feed E req)).2 →
     w _ (setCache k cards ttl) = Throw e →
     (run w (feed E req)).1 = Normal (feedFailure e)).
Proof.
  intros Hok. split.
  - intros e He.
    destruct (feed_path E w req) as (resp & log & Hrun & Hpath). rewrite Hrun.
    destruct Hpath; congruence.
  - intros k cards0 ttl e.
    feed_paths E w req; intros Hin Hthrow; log_inv Hin; simplify_eq; congruence.
Qed.

(** X9. An empty result is served but not cached: with no source selected
    the articles are not even fetched, and with no article fetched the
    assembly gives no card and the cache is not written. *)
Theorem feed_empty_results_not_cached (E : Engine) (w : World) (req : Request) cached :
  isNaN (parseFloat (query_x req)) || isNaN (parseFloat (query_y req)) = false →
  w _ (getCache (feedKey E req)) = Normal cached → truthy cached = false →
  (w _ (pickSources (parseFloat (query_x req)) (parseFloat (query_y req))) = Normal [] →
   run w (feed E req)
   = (Normal (json (CardsJson [])),
      [CacheRead (feedKey E req);
       SourcesPicked (parseFloat (query_x req)) (parseFloat (query_y req))])) ∧
  (∀ sources,
     w _ (pickSources (parseFloat (query_x req)) (parseFloat (query_y req)))
       = Normal sources →
     sources ≠ [] →
     w _ (getArticlesBySources (id <$> sources)) = Normal [] →
     run w (feed E req)
     = (Normal (json (CardsJson [])),
        [CacheRead (feedKey E req);
         SourcesPicked (parseFloat (query_x req)) (parseFloat (query_y req));
         ArticlesFetched (id <$> sources)])).
Proof.
  intros Hok Hget Hmiss. split.
  - intros Hpick.
    destruct (feed_path E w req) as (resp & log & Hrun & Hpath). rewrite Hrun.
    destruct Hpath as [? | ? ? ? | ? ? ? ? ? | ? ? ? ? ? | ? ? ? ? ? ? Hfresh];
      try congruence.
    destruct Hfresh; same_answers; try congruence; done.
  - intros sources Hpick Hne Hfetch.
    assert (assembleCards sources [] = Normal []) as Hnone by (by apply loop_skipped).
    destruct (feed_path E w req) as (resp & log & Hrun & Hpath). rewrite Hrun.
    destruct Hpath as [? | ? ? ? | ? ? ? ? ? | ? ? ? ? ? | ? ? ? ? ? ? Hfresh];
      try congruence.
    destruct Hfresh; same_answers; try congruence; done.
Qed.

(** ** Running composed handler code *)

Section Exec.

Context {C : Type → Type} {E : Type}.
Context (ev : ∀ X, C X → E) (w : ∀ X, C X → completion X).

Lemma exec_bind {A B} (p : Code C A) (k : A → Code C B) :
  exec ev w (p ≫= k)
  = match exec ev w p with
    | (Normal a, log) => let '(r, log') := exec ev w (k a) in (r, log ++ log')
    | (Throw e, log) => (Throw e, log)
    end.
Proof.
  induction p as [a|e|X c k' IH]; simpl.
  - by destruct (exec ev w (k a)).
  - done.
  - change (Code_mbind A B k (k' (w X c))) with (k' (w X c) ≫= k).
    rewrite IH. destruct (exec ev w (k' (w X c))) as [[a|e] log]; [|done].
    by destruct (exec ev w (k a)).
Qed.

Lemma exec_catch {A} (p : Code C A) (h : exn → Code C A) :
  exec ev w (catch p h)
  = match exec ev w p with
    | (Normal a, log) => (Normal a, log)
    | (Throw e, log) => let '(r, log') := exec ev w (h e) in (r, log ++ log')
    end.
Proof.
  induction p as [a|e|X c k' IH]; simpl.
  - done.
  - by destruct (exec ev w (h e)).
  - rewrite IH. destruct (exec ev w (k' (w X c))) as [[a|e] log]; [done|].
    by destruct (exec ev w (h e)).
Qed.

Lemma exec_await {X} (c : C X) :
  exec ev w (await c) = (w X c, [ev X c]).
Proof. simpl. by destruct (w X c). Qed.

End Exec.

(** ** [parseArticle] *)

Module ArticleFacts.

Import ArticleRoute.

(** What a run of [parseArticle] gives, by the answers of its two calls. *)
Lemma parseArticle_run (w : World) (url : value) :
  run w (parseArticle url)
  = match w _ (axios_get url) with
    | Throw e =>
        (Throw (Error ("URL unreachable: " +:+ message e)), [Downloaded url])
    | Normal html =>
        match w _ (Mercury_parse url html) with
        | Throw e =>
            (Throw (Error ("Failed to parse article: " +:+ message e)),
             [Downloaded url; Extracted url html])
        | Normal parsed =>
            (Normal {| extractTitle := orElse (title parsed) url;
                       extractAuthor := orElse (author parsed) (Str "");
                       publishedAt := orElse (date_published parsed) (Str "");
                       htmlContent := orElse (content parsed) (Str "");
                       readingTimeSec := readingTime (word_count parsed) |},
             [Downloaded url; Extracted url html])
        end
    end.
Proof.
  unfold run, parseArticle. simpl.
  destruct (w _ (axios_get url)) as [html|e]; simpl; [|done].
  by destruct (w _ (Mercury_parse url html)).
Qed.


Lemma orElse_truthy a b : truthy b = true → truthy (orElse a b) = true.
Proof. unfold orElse. by destruct (truthy a) eqn:E. Qed.

End ArticleFacts.

(** X11. [parseArticle] throws nothing but its two wrapped errors: "URL
    unreachable" with the message of the failed download, after which the
    parser is not called, or "Failed to parse article" with the message of
    the parser. *)
Theorem parseArticle_wraps_errors (w : ArticleRoute.World) (url : value) err :
  (ArticleRoute.run w (ArticleRoute.parseArticle url)).1 = Throw err →
  (∃ e, w _ (ArticleRoute.axios_get url) = Throw e ∧
        err = Error ("URL unreachable: " +:+ message e) ∧
        (ArticleRoute.run w (ArticleRoute.parseArticle url)).2
        = [ArticleRoute.Downloaded url]) ∨
  (∃ html e, w _ (ArticleRoute.axios_get url) = Normal html ∧
             w _ (ArticleRoute.Mercury_parse url html) = Throw e ∧
             err = Error ("Failed to parse article: " +:+ message e) ∧
             (ArticleRoute.run w (ArticleRoute.parseArticle url)).2
             = [ArticleRoute.Downloaded url; ArticleRoute.Extracted url html]).
Proof.
  rewrite ArticleFacts.parseArticle_run.
  destruct (w _ (ArticleRoute.axios_get url)) as [html|e] eqn:Hget.
  - destruct (w _ (ArticleRoute.Mercury_parse url html)) as [parsed|e] eqn:Hparse;
      [done|].
    simpl. intros [= <-]. right. by exists html, e.
  - simpl. intros [= <-]. left. by exists e.
Qed.

(** ** The [/article] route *)

Module ArticleRouteFacts.

Import ArticleRoute.



End ArticleRouteFacts.






(** ** The [/reaction] route *)

Module ReactionFacts.

Import ReactionRoute.

(** The reaction the handler stores for a body, at clock reading [now]. *)
Lemma reaction_run (w : World) now (body : Body) :
  run w (reaction now body)
  = if negb (truthy (userId body)) || negb (truthy (articleId body))
       || negb (truthy (emoji body)) then
      (Normal {| code := 400;
                 payload := Failure "userId, articleId, and emoji required" None |},
       [])
    else
      match substring50 (articleId body) with
      | Throw e =>
          (Normal {| code := 500;
                     payload := Failure "Failed to save reaction" (Some (message e)) |},
           [])
      | Normal _ =>
          let r := {| savedUserId := userId body;
                      savedArticleId := articleId body;
                      savedEmoji := emoji body;
                      savedTs := orNow (ts body) now |} in
          (Normal match w _ (saveReaction r) with
                  | Normal _ => {| code := 200; payload := Value "ok" |}
                  | Throw e =>
                      {| code := 500;
                         payload := Failure "Failed to save reaction"
                                            (Some (message e)) |}
                  end,
           [r])
      end.
Proof.
  unfold run, reaction. rewrite exec_catch.
  destruct (negb (truthy (userId body)) || negb (truthy (articleId body))
            || negb (truthy (emoji body))); [done|].
  destruct (substring50 (articleId body)) as [s|e]; [|done].
  rewrite exec_bind, exec_await.
  by destruct (w _ (saveReaction _)) as [[]|e].
Qed.

Lemma substring50_Normal a s :
  substring50 a = Normal s → ∃ t, a = Some (JStr t).
Proof. destruct a as [[]|]; simpl; try discriminate. eauto. Qed.

End ReactionFacts.

(** X17. A reaction without a user, an article or an emoji (missing, null,
    empty, 0 or false) is refused with status 400 and is not saved. *)
Theorem reaction_requires_fields (w : ReactionRoute.World) now (body : ReactionRoute.Body) :
  ReactionRoute.truthy (ReactionRoute.userId body) = false ∨
  ReactionRoute.truthy (ReactionRoute.articleId body) = false ∨
  ReactionRoute.truthy (ReactionRoute.emoji body) = false →
  ReactionRoute.run w (ReactionRoute.reaction now body)
  = (Normal {| code := 400;
               payload := Failure "userId, articleId, and emoji required" None |},
     []).
Proof.
  intros Hmissing. rewrite ReactionFacts.reaction_run.
  destruct Hmissing as [-> | [-> | ->]]; simpl; [done | |].
  - by rewrite orb_true_r.
  - by rewrite orb_true_r.
Qed.

(** X18. Whatever is handed to [saveReaction] is the only reaction of the
    request, has the user and the emoji of the body, both truthy, and a
    non-empty string as article id; its timestamp is the client's when that
    is truthy and the reading of the server clock otherwise. *)
Theorem reaction_saved_record
    (w : ReactionRoute.World) now (body : ReactionRoute.Body) r :
  r ∈ (ReactionRoute.run w (ReactionRoute.reaction now body)).2 →
  (ReactionRoute.run w (ReactionRoute.reaction now body)).2 = [r] ∧
  ReactionRoute.savedUserId r = ReactionRoute.userId body ∧
  ReactionRoute.truthy (ReactionRoute.userId body) = true ∧
  ReactionRoute.savedEmoji r = ReactionRoute.emoji body ∧
  ReactionRoute.truthy (ReactionRoute.emoji body) = true ∧
  (∃ s, s ≠ EmptyString ∧
        ReactionRoute.articleId body = Some (ReactionRoute.JStr s) ∧
        ReactionRoute.savedArticleId r = Some (ReactionRoute.JStr s)) ∧
  ReactionRoute.savedTs r
  = (if ReactionRoute.truthy (ReactionRoute.ts body) then ReactionRoute.ts body
     else Some (ReactionRoute.JNum now)).
Proof.
  rewrite ReactionFacts.reaction_run.
  destruct (ReactionRoute.truthy (ReactionRoute.userId body)) eqn:Hu; simpl;
    [|by intros ?%elem_of_nil].
  destruct (ReactionRoute.truthy (ReactionRoute.articleId body)) eqn:Ha; simpl;
    [|by intros ?%elem_of_nil].
  destruct (ReactionRoute.truthy (ReactionRoute.emoji body)) eqn:He; simpl;
    [|by intros ?%elem_of_nil].
  destruct (ReactionRoute.substring50 _) as [t|e] eqn:Hsub; simpl;
    [|by intros ?%elem_of_nil].
  intros ->%list_elem_of_singleton. simpl. split_and!; try done.
  apply ReactionFacts.substring50_Normal in Hsub as [s Hs]. exists s.
  rewrite Hs in Ha |- *. split_and!; try done.
  intros ->. vm_compute in Ha. discriminate Ha.
Qed.

(** X19. An article id that is truthy but not a string (a number, [true], an
    array or an object) passes the check for required fields and then makes
    the handler fail: status 500, nothing saved. *)
Theorem reaction_non_string_articleId
    (w : ReactionRoute.World) now (body : ReactionRoute.Body) v :
  ReactionRoute.truthy (ReactionRoute.userId body) = true →
  ReactionRoute.truthy (ReactionRoute.emoji body) = true →
  ReactionRoute.articleId body = Some v →
  ReactionRoute.truthy (Some v) = true →
  (∀ s, v ≠ ReactionRoute.JStr s) →
  ReactionRoute.run w (ReactionRoute.reaction now body)
  = (Normal {| code := 500;
               payload := Failure "Failed to save reaction"
                                  (Some "articleId.substring is not a function") |},
     []).
Proof.
  intros Hu He Ha Hv Hns. rewrite ReactionFacts.reaction_run, Hu, He, Ha, Hv. simpl.
  destruct v as [|b|n|s|t]; simpl; try done.
  by destruct (Hns s).
Qed.

(** X20. The handler always answers; it answers "ok" exactly when it has
    handed one reaction to [saveReaction] and the save succeeded, and a
    rejected save is answered with status 500 and its message. *)
Theorem reaction_ok_iff_saved (w : ReactionRoute.World) now (body : ReactionRoute.Body) :
  ∃ reply,
    (ReactionRoute.run w (ReactionRoute.reaction now body)).1 = Normal reply ∧
    (code reply = 200 ∨ code reply = 400 ∨ code reply = 500) ∧
    (code reply = 200 ↔
     ∃ r, (ReactionRoute.run w (ReactionRoute.reaction now body)).2 = [r] ∧
          w _ (ReactionRoute.saveReaction r) = Normal ()) ∧
    (∀ r e, r ∈ (ReactionRoute.run w (ReactionRoute.reaction now body)).2 →
            w _ (ReactionRoute.saveReaction r) = Throw e →
            reply = {| code := 500;
                       payload := Failure "Failed to save reaction"
                                          (Some (message e)) |}).
Proof.
  rewrite ReactionFacts.reaction_run.
  destruct (negb _ || negb _ || negb _).
  { eexists. split; [done|]. simpl. split_and!; [auto| |by intros ? ? ?%elem_of_nil].
    split; [discriminate | by intros (r & [=] & _)]. }
  destruct (ReactionRoute.substring50 _) as [t|e0].
  2:{ eexists. split; [done|]. simpl. split_and!; [auto| |by intros ? ? ?%elem_of_nil].
      split; [discriminate | by intros (r & [=] & _)]. }
  simpl.
  destruct (w _ (ReactionRoute.saveReaction _)) as [[]|e0] eqn:Hsave.
  - eexists. split; [done|]. simpl. split_and!; [auto| |].
    + split; [|done]. intros _. by eexists.
    + intros r e ->%list_elem_of_singleton. congruence.
  - eexists. split; [done|]. simpl. split_and!; [auto| |].
    + split; [discriminate|]. intros (r & [= <-] & Hr). congruence.
    + intros r e ->%list_elem_of_singleton. congruence.
Qed.

(** ** The reading time of an article *)

Module DoubleFacts.

Import Double.

Lemma shr_1_nonneg mrs : (0 ≤ shr_m mrs)%Z → (0 ≤ shr_m (shr_1 mrs))%Z.
Proof.
  destruct mrs as [m r s]. simpl.
  destruct m as [|[p|p|]|[p|p|]]; simpl; lia.
Qed.

Lemma iter_pos_invariant {A} (P : A → Prop) (f : A → A) :
  (∀ a, P a → P (f a)) → ∀ n a, P a → P (iter_pos f n a).
Proof.
  intros Hf n. induction n as [n IH|n IH|]; intros a Ha; simpl; auto.
Qed.

Lemma shr_nonneg mrs e n :
  (0 ≤ shr_m mrs)%Z → (0 ≤ shr_m (shr mrs e n).1)%Z.
Proof.
  intros Hm. destruct n as [|p|p]; simpl; [done| |done].
  by apply (iter_pos_invariant (λ r, 0 ≤ shr_m r)%Z), Hm; apply shr_1_nonneg.
Qed.

Lemma shr_fexp_nonneg prec emax m e l :
  (0 ≤ m)%Z → (0 ≤ shr_m (shr_fexp prec emax m e l).1)%Z.
Proof.
  intros Hm. unfold shr_fexp. apply shr_nonneg.
  by destruct l as [|[]].
Qed.

Lemma round_nearest_even_nonneg m l :
  (0 ≤ m)%Z → (0 ≤ round_nearest_even m l)%Z.
Proof.
  intros Hm. destruct l as [|[]]; simpl; try lia.
  destruct (Z.even m); lia.
Qed.

(** Rounding a non-negative mantissa gives a number with the sign asked for. *)
Lemma binary_round_aux_signed prec emax s m e l :
  (0 ≤ m)%Z → signed s (binary_round_aux prec emax s m e l).
Proof.
  intros Hm. unfold binary_round_aux.
  pose proof (shr_fexp_nonneg prec emax m e l Hm) as H1.
  destruct (shr_fexp prec emax m e l) as [mrs' e'].
  pose proof (shr_fexp_nonneg prec emax
                (round_nearest_even (shr_m mrs') (loc_of_shr_record mrs')) e' loc_Exact
                (round_nearest_even_nonneg _ _ H1)) as H2.
  destruct (shr_fexp prec emax _ e' loc_Exact) as [mrs'' e''].
  simpl in H2. destruct (shr_m mrs'') as [|p|p]; simpl; [done | | lia].
  by destruct (Z.leb _ _).
Qed.

Lemma ofZ_signed n : signed (bool_decide (n < 0)%Z) (Double.ofZ n).
Proof.
  unfold Double.ofZ, binary_normalize, binary_round.
  destruct n as [|p|p]; simpl; [done| |].
  - destruct (shl_align p 0 _) as [mz ez].
    by apply binary_round_aux_signed.
  - destruct (shl_align p 0 _) as [mz ez].
    by apply binary_round_aux_signed.
Qed.

Lemma div_signed s sy my ey n :
  signed s n → Double.truthy n = true →
  signed (xorb s sy) (Double.div n (S754_finite sy my ey)).
Proof.
  destruct n as [s'|s'| |s' m e]; simpl; try done; intros <- _; [done|].
  unfold SFdiv_core_binary.
  set (e' := Z.min _ _). set (sh := (e - ey - e')%Z).
  set (m' := match sh with Z0 => _ | Zpos _ => _ | Zneg _ => _ end).
  assert (0 ≤ m')%Z as Hm'.
  { subst m'. destruct sh; [lia | | lia]. apply Z.shiftl_nonneg. lia. }
  pose proof (Z.div_pos m' (Z.pos my) Hm' ltac:(lia)) as Hq.
  unfold Z.div in Hq. destruct (Z.div_eucl m' (Z.pos my)) as [q r].
  by apply binary_round_aux_signed.
Qed.

Lemma mul_signed s sy my ey n :
  signed s n → signed (xorb s sy) (Double.mul n (S754_finite sy my ey)).
Proof.
  destruct n as [s'|s'| |s' m e]; simpl; try done; intros <-; try done.
  by apply binary_round_aux_signed.
Qed.

Lemma Math_ceil_signed s n : signed s n → signed s (Double.Math_ceil n).
Proof.
  destruct n as [s'|s'| |s' m e]; simpl; try done; intros <-.
  destruct (0 <=? e)%Z eqn:He; [done|].
  apply Z.leb_gt in He.
  assert (0 < 2 ^ (- e))%Z as Hd by (apply Z.pow_pos_nonneg; lia).
  destruct s'.
  - pose proof (Z.div_pos (Z.pos m) (2 ^ (- e)) ltac:(lia) Hd) as Hn.
    destruct (Z.pos m / 2 ^ (- e) =? 0)%Z eqn:H0; [done|].
    apply Z.eqb_neq in H0.
    pose proof (ofZ_signed (- (Z.pos m / 2 ^ (- e)))) as Hs.
    rewrite bool_decide_eq_true_2 in Hs by lia. done.
  - pose proof (Z.div_pos (Z.pos m + 2 ^ (- e) - 1) (2 ^ (- e)) ltac:(lia) Hd) as Hn.
    pose proof (ofZ_signed ((Z.pos m + 2 ^ (- e) - 1) / 2 ^ (- e))) as Hs.
    rewrite bool_decide_eq_false_2 in Hs by lia. done.
Qed.

Lemma signed_negative s n : signed s n → Double.negative n = s.
Proof. by destruct n. Qed.

Lemma signed_not_nan s n : signed s n → n ≠ S754_nan.
Proof. by destruct n. Qed.

Lemma truthy_signed n : Double.truthy n = true → signed (Double.negative n) n.
Proof. by destruct n. Qed.

(** The reading time of a truthy count has the sign of the count. *)
Lemma readingTime_signed n :
  Double.truthy n = true →
  signed (Double.negative n) (ArticleRoute.readingTime (Some n)).
Proof.
  intros Hn. unfold ArticleRoute.readingTime. rewrite Hn.
  apply Math_ceil_signed.
  pose proof (div_signed _ false 7036874417766400 (-45) n (truthy_signed n Hn) Hn) as Hd.
  pose proof (mul_signed _ false 8444249301319680 (-47) _ Hd) as Hm.
  by rewrite !xorb_false_r in Hm.
Qed.

End DoubleFacts.

(** X21. The reading time is always a number: whatever [word_count] Mercury
    reports, also [NaN], an infinity or none, [readingTimeSec] is not
    [NaN]. *)
Theorem readingTime_never_NaN (wc : option Double.double) :
  ArticleRoute.readingTime wc ≠ S754_nan.
Proof.
  destruct wc as [n|]; [|done].
  destruct (Double.truthy n) eqn:Hn.
  - eapply DoubleFacts.signed_not_nan, DoubleFacts.readingTime_signed, Hn.
  - unfold ArticleRoute.readingTime. by rewrite Hn.
Qed.

(** X22. A word count that is not negative gives a reading time that is not
    negative. *)
Theorem readingTime_not_negative (n : Double.double) :
  Double.negative n = false →
  Double.negative (ArticleRoute.readingTime (Some n)) = false.
Proof.
  intros Hsign. destruct (Double.truthy n) eqn:Hn.
  - pose proof (DoubleFacts.readingTime_signed n Hn) as Hs.
    rewrite Hsign in Hs. by apply DoubleFacts.signed_negative in Hs.
  - unfold ArticleRoute.readingTime. by rewrite Hn.
Qed.

Module ReadingTimeFacts.

(** The estimate of X23 as a test on one count. *)
Lemma estimate_checked :
  forallb (λ wc, let r := Double.toZ (ArticleRoute.readingTime (Some (Double.ofZ wc))) in
                 ((3 * wc + 9) / 10 <=? r)%Z && (r <=? (3 * wc + 9) / 10 + 1)%Z)
          (seqZ 1 2000) = true.
Proof. vm_compute. reflexivity. Qed.

End ReadingTimeFacts.

(** X23. For a count of 1 to 2000 words the reading time is 0.3 seconds per
    word rounded up to a whole second, or one second more (the division by
    200 and the multiplication by 60 are rounded before [Math.ceil]). *)
Theorem readingTime_estimate (wc : Z) :
  (1 ≤ wc ≤ 2000)%Z →
  ((3 * wc + 9) / 10
   ≤ Double.toZ (ArticleRoute.readingTime (Some (Double.ofZ wc)))
   ≤ (3 * wc + 9) / 10 + 1)%Z.
Proof.
  intros Hwc.
  pose proof ReadingTimeFacts.estimate_checked as Hall.
  rewrite forallb_forall in Hall.
  assert (wc ∈ seqZ 1 2000) as Hin by (apply elem_of_seqZ; lia).
  apply list_elem_of_In, Hall in Hin. cbv beta zeta in Hin.
  apply andb_true_iff in Hin as [Hlo Hhi].
  apply Z.leb_le in Hlo, Hhi. lia.
Qed.

(** ** The properties above, at sample collaborators *)

Lemma feed_500_reports_failed_collaborator_witness :
  ∃ e, body (feedFailure (Error "timeout of 5000ms exceeded"))
       = ErrorJson "Failed to fetch articles" (Some (message e)) ∧
       ((∃ X (c : Call X),
           last (run Scenario.fetchDown (feed Sample.engine Scenario.req)).2
           = Some (eventOf c) ∧
           Scenario.fetchDown X c = Throw e) ∨
        (∃ cached,
           Scenario.fetchDown _ (getCache (feedKey Sample.engine Scenario.req))
           = Normal cached ∧
           truthy cached = true ∧ isJSON Sample.engine (ToString cached) = false ∧
           e = SyntaxError (jsonError Sample.engine (ToString cached))) ∨
        (∃ sources articles,
           Scenario.fetchDown _ (pickSources (parseFloat (query_x Scenario.req))
                                             (parseFloat (query_y Scenario.req)))
             = Normal sources ∧
           Scenario.fetchDown _ (getArticlesBySources (id <$> sources)) = Normal articles ∧
           assembleCards sources articles = Throw e)).
Proof.
  apply (feed_500_reports_failed_collaborator
           Sample.engine Scenario.fetchDown Scenario.req
           (feedFailure (Error "timeout of 5000ms exceeded")));
    reflexivity.
Defined.

Lemma feed_caches_only_assembled_cards_witness :
  "feed:0.000:0.000" = feedKey Sample.engine Scenario.req ∧ 1800 = 1800 ∧
  Scenario.cards ≠ [] ∧
  ∃ sources articles,
    Sample.world _ (pickSources (parseFloat (query_x Scenario.req))
                                (parseFloat (query_y Scenario.req)))
    = Normal sources ∧
    Sample.world _ (getArticlesBySources (id <$> sources)) = Normal articles ∧
    assembleCards sources articles = Normal Scenario.cards.
Proof.
  apply (feed_caches_only_assembled_cards Sample.engine Sample.world Scenario.req).
  vm_compute. do 3 apply list_elem_of_further. apply list_elem_of_here.
Defined.

Lemma feed_serves_what_it_cached_witness :
  status (json (CardsJson Scenario.cards)) = 200 ∧
  last (run Sample.world (feed Sample.engine Scenario.req)).2
  = Some (CacheWritten (feedKey Sample.engine Scenario.req) Scenario.cards 1800) ∧
  Sample.world _ (setCache (feedKey Sample.engine Scenario.req) Scenario.cards 1800)
  = Normal ().
Proof.
  apply (feed_serves_what_it_cached Sample.engine Sample.world Scenario.req
           (json (CardsJson Scenario.cards)) Scenario.cards);
    [reflexivity | reflexivity | discriminate].
Defined.

Lemma feed_cache_hit_short_circuits_witness :
  (run Scenario.cacheHit (feed Sample.engine Scenario.req)).2
  = [CacheRead "feed:0.000:0.000"] ∧
  (run Scenario.cacheHit (feed Sample.engine Scenario.req)).1
  = Normal (json (ParsedJson "[]")).
Proof.
  apply (feed_cache_hit_short_circuits
           Sample.engine Scenario.cacheHit Scenario.req (Str "[]"));
    reflexivity.
Defined.

Lemma feed_fresh_one_card_per_source_witness :
  ∃ cards,
    run Sample.world (feed Sample.engine Scenario.req)
    = (Normal (json (CardsJson cards)),
       [CacheRead "feed:0.000:0.000";
        SourcesPicked (Finite 1) (Finite 1);
        ArticlesFetched ["A"; "B"];
        CacheWritten "feed:0.000:0.000" cards 1800]) ∧
    length cards = 2 ∧
    Forall2 identityOf [Sample.srcA; Sample.srcB] cards.
Proof.
  apply (feed_fresh_one_card_per_source
           Sample.engine Sample.world Scenario.req Null
           [Sample.srcA; Sample.srcB] [Sample.artB]);
    first [reflexivity | discriminate | intros; reflexivity].
Defined.

Lemma feed_cache_outage_witness :
  run Scenario.cacheDown (feed Sample.engine Scenario.req)
  = (Normal (feedFailure (Error "ECONNREFUSED")), [CacheRead "feed:0.000:0.000"]) ∧
  (run Scenario.cacheReadOnly (feed Sample.engine Scenario.req)).1
  = Normal (feedFailure (Error "READONLY")).
Proof.
  split.
  - destruct (feed_cache_outage Sample.engine Scenario.cacheDown Scenario.req eq_refl)
      as [Hread _].
    apply Hread. reflexivity.
  - destruct (feed_cache_outage Sample.engine Scenario.cacheReadOnly Scenario.req eq_refl)
      as [_ Hwrite].
    apply (Hwrite "feed:0.000:0.000" Scenario.cards 1800 (Error "READONLY"));
      [|reflexivity].
    vm_compute. do 3 apply list_elem_of_further. apply list_elem_of_here.
Defined.

Lemma feed_empty_results_not_cached_witness :
  run Scenario.noSources (feed Sample.engine Scenario.req)
  = (Normal (json (CardsJson [])),
     [CacheRead "feed:0.000:0.000"; SourcesPicked (Finite 1) (Finite 1)]) ∧
  run Scenario.noArticles (feed Sample.engine Scenario.req)
  = (Normal (json (CardsJson [])),
     [CacheRead "feed:0.000:0.000"; SourcesPicked (Finite 1) (Finite 1);
      ArticlesFetched ["A"; "B"]]).
Proof.
  split.
  - destruct (feed_empty_results_not_cached
                Sample.engine Scenario.noSources Scenario.req Null
                eq_refl eq_refl eq_refl) as [Hnone _].
    apply Hnone. reflexivity.
  - destruct (feed_empty_results_not_cached
                Sample.engine Scenario.noArticles Scenario.req Null
                eq_refl eq_refl eq_refl) as [_ Hnone].
    apply (Hnone [Sample.srcA; Sample.srcB]);
      [reflexivity | discriminate | reflexivity].
Defined.

Lemma parseArticle_wraps_errors_witness :
  (∃ e, Scenario.offline _ (ArticleRoute.axios_get Scenario.page) = Throw e ∧
        Error "URL unreachable: ENOTFOUND" = Error ("URL unreachable: " +:+ message e) ∧
        (ArticleRoute.run Scenario.offline (ArticleRoute.parseArticle Scenario.page)).2
        = [ArticleRoute.Downloaded Scenario.page]) ∨
  (∃ html e, Scenario.offline _ (ArticleRoute.axios_get Scenario.page) = Normal html ∧
             Scenario.offline _ (ArticleRoute.Mercury_parse Scenario.page html) = Throw e ∧
             Error "URL unreachable: ENOTFOUND"
             = Error ("Failed to parse article: " +:+ message e) ∧
             (ArticleRoute.run Scenario.offline (ArticleRoute.parseArticle Scenario.page)).2
             = [ArticleRoute.Downloaded Scenario.page;
                ArticleRoute.Extracted Scenario.page html]).
Proof.
  apply (parseArticle_wraps_errors Scenario.offline Scenario.page
           (Error "URL unreachable: ENOTFOUND")).
  reflexivity.
Defined.





Lemma reaction_requires_fields_witness :
  ReactionRoute.run (Scenario.reactionWorld (Normal ()))
    (ReactionRoute.reaction Scenario.now
       {| ReactionRoute.userId := Some (ReactionRoute.JStr "u1");
          ReactionRoute.articleId := Some (ReactionRoute.JStr "");
          ReactionRoute.emoji := Some (ReactionRoute.JStr "like");
          ReactionRoute.ts := None |})
  = (Normal {| code := 400;
               payload := Failure "userId, articleId, and emoji required" None |},
     []).
Proof.
  apply reaction_requires_fields. right. left. reflexivity.
Defined.

Lemma reaction_saved_record_witness :
  ∃ r,
    (ReactionRoute.run (Scenario.reactionWorld (Normal ()))
       (ReactionRoute.reaction Scenario.now Scenario.liked)).2 = [r] ∧
    ReactionRoute.savedArticleId r = Some (ReactionRoute.JStr "https://b.example/1") ∧
    ReactionRoute.savedTs r = Some (ReactionRoute.JNum Scenario.now).
Proof.
  eexists.
  destruct (reaction_saved_record (Scenario.reactionWorld (Normal ())) Scenario.now
              Scenario.liked
              {| ReactionRoute.savedUserId := Some (ReactionRoute.JStr "u1");
                 ReactionRoute.savedArticleId := Some (ReactionRoute.JStr "https://b.example/1");
                 ReactionRoute.savedEmoji := Some (ReactionRoute.JStr "like");
                 ReactionRoute.savedTs := Some (ReactionRoute.JNum Scenario.now) |})
    as (Hlog & _ & _ & _ & _ & _ & Hts).
  { vm_compute. apply list_elem_of_here. }
  split_and!; [exact Hlog | reflexivity | exact Hts].
Defined.

Lemma reaction_non_string_articleId_witness :
  ReactionRoute.run (Scenario.reactionWorld (Normal ()))
    (ReactionRoute.reaction Scenario.now Scenario.numbered)
  = (Normal {| code := 500;
               payload := Failure "Failed to save reaction"
                                  (Some "articleId.substring is not a function") |},
     []).
Proof.
  apply (reaction_non_string_articleId (Scenario.reactionWorld (Normal ())) Scenario.now
           Scenario.numbered (ReactionRoute.JNum (Double.ofZ 42)));
    first [reflexivity | discriminate].
Defined.

Lemma reaction_ok_iff_saved_witness :
  ∃ reply,
    (ReactionRoute.run (Scenario.reactionWorld (Throw (Error "connection lost")))
       (ReactionRoute.reaction Scenario.now Scenario.liked)).1 = Normal reply ∧
    reply = {| code := 500;
               payload := Failure "Failed to save reaction" (Some "connection lost") |}.
Proof.
  destruct (reaction_ok_iff_saved (Scenario.reactionWorld (Throw (Error "connection lost")))
              Scenario.now Scenario.liked) as (reply & Hrun & _ & _ & Hfail).
  exists reply. split; [exact Hrun|].
  apply (Hfail {| ReactionRoute.savedUserId := Some (ReactionRoute.JStr "u1");
                  ReactionRoute.savedArticleId := Some (ReactionRoute.JStr "https://b.example/1");
                  ReactionRoute.savedEmoji := Some (ReactionRoute.JStr "like");
                  ReactionRoute.savedTs := Some (ReactionRoute.JNum Scenario.now) |}
                (Error "connection lost")); [|reflexivity].
  vm_compute. apply list_elem_of_here.
Defined.

Lemma readingTime_not_negative_witness :
  Double.negative (ArticleRoute.readingTime (Some (Double.ofZ 830))) = false.
Proof. apply (readingTime_not_negative (Double.ofZ 830)). reflexivity. Defined.

(** 830 words: 249 seconds at 0.3 seconds per word, 250 as computed. *)
Lemma readingTime_estimate_witness :
  Double.toZ (ArticleRoute.readingTime (Some (Double.ofZ 830))) = 250%Z ∧
  ((3 * 830 + 9) / 10
   ≤ Double.toZ (ArticleRoute.readingTime (Some (Double.ofZ 830)))
   ≤ (3 * 830 + 9) / 10 + 1)%Z.
Proof.
  split; [vm_compute; reflexivity|].
  apply (readingTime_estimate 830). lia.
Defined.

(** ** The routes on every query value *)

Module ExpressFacts.

(** A query whose two parameters convert to strings is handled as [feed]
    handles those strings. *)
Lemma feed_convertible E q sx sy :
  Express.ToString (Express.qx q) = Normal sx →
  Express.ToString (Express.qy q) = Normal sy →
  Express.feed E q = feed E (Express.asRequest sx sy).
Proof.
  intros Hx Hy. unfold Express.feed, Express.parseFloat, feed. by rewrite Hx, Hy.
Qed.

(** A conversion that throws is thrown by the handler, before its guard. *)
Lemma feed_throws_x E q e :
  Express.ToString (Express.qx q) = Throw e → Express.feed E q = Raise e.
Proof.
  intros Hx. unfold Express.feed, Express.parseFloat. by rewrite Hx.
Qed.

Lemma feed_throws_y E q sx e :
  Express.ToString (Express.qx q) = Normal sx →
  Express.ToString (Express.qy q) = Throw e → Express.feed E q = Raise e.
Proof.
  intros Hx Hy. unfold Express.feed, Express.parseFloat. by rewrite Hx, Hy.
Qed.

(** The coordinates that reach the selector are numbers. *)
Lemma feed_log_picked E w q px py :
  SourcesPicked px py ∈ (run w (Express.feed E q)).2 →
  isNaN px = false ∧ isNaN py = false.
Proof.
  destruct (Express.ToString (Express.qx q)) as [sx|e] eqn:Hx.
  2:{ rewrite (feed_throws_x E q e Hx). simpl. by intros ?%elem_of_nil. }
  destruct (Express.ToString (Express.qy q)) as [sy|e] eqn:Hy.
  2:{ rewrite (feed_throws_y E q sx e Hx Hy). simpl. by intros ?%elem_of_nil. }
  rewrite (feed_convertible E q sx sy Hx Hy).
  intros H. by apply feed_log_SourcesPicked in H as (_ & _ & ? & ?).
Qed.



Lemma article_any_rejected encode JSON (w : Express.World) (url : Express.param) :
  Express.truthy url = false →
  Express.run w (Express.article encode JSON url)
  = (Normal {| code := 400; payload := Failure "url required" None |}, []).
Proof. intros Hurl. unfold Express.run, Express.article. by rewrite Hurl. Qed.

Lemma article_any_throws encode JSON (w : Express.World) (url : Express.param) e :
  Express.truthy url = true → Express.ToString url = Throw e →
  Express.run w (Express.article encode JSON url) = (Throw e, []).
Proof.
  intros Hurl He. unfold Express.run, Express.article. by rewrite Hurl, He.
Qed.

(** A run for a url that passes the check and converts to [text]: the
    handler answers, and its first call reads the cache. *)
Lemma article_any_answers encode JSON (w : Express.World) (url : Express.param) text :
  Express.truthy url = true → Express.ToString url = Normal text →
  ∃ r log,
    Express.run w (Express.article encode JSON url)
    = (Normal r, Express.CacheRead ("article:" +:+ encode text) :: log) ∧
    (code r = 200 ∨ code r = 500).
Proof.
  intros Hurl Htext. unfold Express.run, Express.article. rewrite Hurl, Htext.
  simpl negb. cbv iota.
  change (Done text ≫= ?k) with (k text). cbv beta.
  rewrite exec_catch, exec_bind, exec_await.
  destruct (w _ (Express.getCache _)) as [cached|e]; [|simpl; eauto].
  destruct (truthy cached).
  { destruct (ArticleRoute.accepts JSON _); simpl; eauto. }
  rewrite exec_bind.
  destruct (exec (@Express.eventOf) w (Express.parseArticle url)) as [[a|e] log].
  2:{ simpl. eauto. }
  rewrite exec_bind, exec_await.
  destruct (w _ (Express.setCache _ a 86400%N)) as [[]|e]; simpl; eauto.
Qed.

End ExpressFacts.

(** C8. As stated the claim fails on the code: a request whose [x] is an
    object with a [toString] key (the query [?x[toString]=1&y=1] gives
    [{ toString: '1' }]) does not parse as a number, yet it is not answered
    with status 400.  [parseFloat] throws at line 44, before the [try] of
    line 55, so the handler throws and sends no response, whatever [y] and
    the collaborators are. *)
Theorem feed_object_coordinate_unanswered
    (E : Engine) (w : World) (fields : list (string * Express.param))
    (y : Express.param) :
  Express.hasOwn "toString" fields = true →
  run w (Express.feed E {| Express.qx := Express.Dict fields; Express.qy := y |})
  = (Throw (TypeError "Cannot convert object to primitive value"), []).
Proof.
  intros Hown.
  rewrite (ExpressFacts.feed_throws_x E _
             (TypeError "Cannot convert object to primitive value")); [done|].
  simpl. by rewrite Hown.
Qed.

Lemma feed_object_coordinate_unanswered_witness :
  run Sample.world
    (Express.feed Sample.engine
       {| Express.qx := Express.Dict [("toString", Express.Text "1")];
          Express.qy := Express.Text "1" |})
  = (Throw (TypeError "Cannot convert object to primitive value"), []).
Proof.
  apply (feed_object_coordinate_unanswered Sample.engine Sample.world
           [("toString", Express.Text "1")] (Express.Text "1")).
  reflexivity.
Defined.

(** X1. The [/feed] handler answers every request whose [x] and [y]
    convert to strings (missing or string parameters, arrays and objects
    without a [toString] key among them), with status 200, 400 or 500,
    whatever its collaborators do.  The one exception that leaves the
    handler is the one a conversion throws, and it leaves it before any
    call is made. *)
Theorem feed_answers_unless_conversion_throws
    (E : Engine) (w : World) (q : Express.Query) :
  (∃ sx sy resp,
     Express.ToString (Express.qx q) = Normal sx ∧
     Express.ToString (Express.qy q) = Normal sy ∧
     (run w (Express.feed E q)).1 = Normal resp ∧
     (status resp = 200 ∨ status resp = 400 ∨ status resp = 500)) ∨
  (∃ e,
     (Express.ToString (Express.qx q) = Throw e ∨
      (∃ sx, Express.ToString (Express.qx q) = Normal sx) ∧
      Express.ToString (Express.qy q) = Throw e) ∧
     run w (Express.feed E q) = (Throw e, [])).
Proof.
  destruct (Express.ToString (Express.qx q)) as [sx|e] eqn:Hx.
  2:{ right. exists e. split; [by left|].
      by rewrite (ExpressFacts.feed_throws_x E q e Hx). }
  destruct (Express.ToString (Express.qy q)) as [sy|e] eqn:Hy.
  2:{ right. exists e. split; [right; eauto|].
      by rewrite (ExpressFacts.feed_throws_y E q sx e Hx Hy). }
  left. rewrite (ExpressFacts.feed_convertible E q sx sy Hx Hy).
  destruct (feed_answers E w (Express.asRequest sx sy)) as (resp & Hrun & Hst).
  by exists sx, sy, resp.
Qed.

(** X24. When both parameters convert to strings and [parseFloat] finds no
    number in one of them (a missing parameter converts to "undefined"),
    the handler is its [return res.status(400)...] and nothing else: status
    400 and no call, neither to the cache nor to the selector nor to the
    article fetch.  Whatever coordinates reach the selector are not
    [NaN]. *)
Theorem feed_guard_rejects_unparsable
    (E : Engine) (w : World) (q : Express.Query) :
  (∀ sx sy,
     Express.ToString (Express.qx q) = Normal sx →
     Express.ToString (Express.qy q) = Normal sy →
     Js.parseFloat (Str sx) = NaN ∨ Js.parseFloat (Str sy) = NaN →
     Express.feed E q
     = Ret {| status := 400; body := ErrorJson "x and y required" None |} ∧
     run w (Express.feed E q)
     = (Normal {| status := 400; body := ErrorJson "x and y required" None |}, [])) ∧
  (∀ px py, SourcesPicked px py ∈ (run w (Express.feed E q)).2 →
            isNaN px = false ∧ isNaN py = false).
Proof.
  split.
  - intros sx sy Hx Hy Hbad.
    rewrite (ExpressFacts.feed_convertible E q sx sy Hx Hy). unfold feed. simpl.
    assert (isNaN (Js.parseFloat (Str sx)) || isNaN (Js.parseFloat (Str sy)) = true)
      as ->; [|split; reflexivity].
    apply orb_true_iff. destruct Hbad as [-> | ->]; auto.
  - apply ExpressFacts.feed_log_picked.
Qed.


(** X12. The [/article] handler answers 400, without any call, exactly when
    the url is missing or empty.  Any other url that converts to a string is
    answered with 200 or 500, the cache being read first under the key of
    that string.  A url whose conversion throws (an object with a
    [toString] key, or an array holding one) makes the handler throw at
    line 149, before the [try]: nothing is called and nothing is sent. *)
Theorem article_answers_unless_conversion_throws
    encode (JSON : ArticleRoute.JSONParse) (w : Express.World) (url : Express.param) :
  (Express.truthy url = false ∧
   Express.run w (Express.article encode JSON url)
   = (Normal {| code := 400; payload := Failure "url required" None |}, [])) ∨
  (∃ text r log,
     Express.truthy url = true ∧ Express.ToString url = Normal text ∧
     Express.run w (Express.article encode JSON url)
     = (Normal r, Express.CacheRead ("article:" +:+ encode text) :: log) ∧
     (code r = 200 ∨ code r = 500)) ∨
  (∃ e,
     Express.truthy url = true ∧ Express.ToString url = Throw e ∧
     Express.run w (Express.article encode JSON url) = (Throw e, [])).
Proof.
  destruct (Express.truthy url) eqn:Hurl.
  - right. destruct (Express.ToString url) as [text|e] eqn:Htext.
    + left.
      destruct (ExpressFacts.article_any_answers encode JSON w url text Hurl Htext)
        as (r & log & Hrun & Hcode).
      by exists text, r, log.
    + right. exists e. split_and!; [done | done |].
      by apply ExpressFacts.article_any_throws.
  - left. split; [done|]. by apply ExpressFacts.article_any_rejected.
Qed.

Lemma feed_guard_rejects_unparsable_witness :
  run Sample.world
    (Express.feed Sample.engine
       {| Express.qx := Express.Text "0.5"; Express.qy := Express.Missing |})
  = (Normal {| status := 400; body := ErrorJson "x and y required" None |}, []) ∧
  run Sample.world
    (Express.feed Sample.engine
       {| Express.qx := Express.List [Express.Text "north"; Express.Text "1"];
          Express.qy := Express.Text "1" |})
  = (Normal {| status := 400; body := ErrorJson "x and y required" None |}, []).
Proof.
  split.
  - destruct (feed_guard_rejects_unparsable Sample.engine Sample.world
                {| Express.qx := Express.Text "0.5"; Express.qy := Express.Missing |})
      as [Hguard _].
    apply (Hguard "0.5" "undefined"); [reflexivity | reflexivity |].
    right. reflexivity.
  - destruct (feed_guard_rejects_unparsable Sample.engine Sample.world
                {| Express.qx := Express.List [Express.Text "north"; Express.Text "1"];
                   Express.qy := Express.Text "1" |})
      as [Hguard _].
    apply (Hguard "north,1" "1"); [reflexivity | reflexivity |].
    left. reflexivity.
Defined.

